(** * customConfigParser: the permissive INI reader of lib/customConfigParser.py

    The development embeds [customConfigParser.__init__] and
    [customConfigParser._read] together with the pieces of Python's
    [configparser.RawConfigParser] that [_read] calls ([SECTCRE], the option
    pattern built by the constructor, [NONSPACECRE], [optionxform],
    [_handle_error] and [_join_multiline_values]).

    Python strings are modelled by [string]; a character is a code point
    below 256.  Python integers are modelled by [Z]. *)

From Stdlib Require Import ZArith List Bool Ascii String Sorted Lia.
Import ListNotations.

Local Open Scope string_scope.
Local Open Scope Z_scope.

(** ** Python string primitives *)

Module PyStr.

(** [str.isspace] on one character, which is also the class [\s] of [re]:
    TAB, LF, VT, FF, CR, the separators FS, GS, RS, US, the space, NEL and
    the no-break space. *)
Definition isspace (c : ascii) : bool :=
  let n := nat_of_ascii c in
  ((9 <=? n) && (n <=? 13) || (28 <=? n) && (n <=? 32)
   || (n =? 133) || (n =? 160))%nat.

Definition LF : ascii := ascii_of_nat 10.

Definition is_newline (c : ascii) : bool := Ascii.eqb c LF.

(** [len(s)] *)
Definition len (s : string) : Z := Z.of_nat (String.length s).

(** [s.lstrip()] *)
Fixpoint lstrip (s : string) : string :=
  match s with
  | EmptyString => EmptyString
  | String c s' => if isspace c then lstrip s' else s
  end.

(** [s.rstrip()] *)
Fixpoint rstrip (s : string) : string :=
  match s with
  | EmptyString => EmptyString
  | String c s' =>
      match rstrip s' with
      | EmptyString => if isspace c then EmptyString else String c EmptyString
      | r => String c r
      end
  end.

(** [s.strip()] *)
Definition strip (s : string) : string := rstrip (lstrip s).

(** [s.startswith(p)] *)
Fixpoint startswith (s p : string) : bool :=
  match p, s with
  | EmptyString, _ => true
  | String _ _, EmptyString => false
  | String a p', String b s' => Ascii.eqb a b && startswith s' p'
  end.

(** [s[n:]] for [0 <= n] *)
Fixpoint drop (n : nat) (s : string) : string :=
  match n, s with
  | O, _ => s
  | S _, EmptyString => EmptyString
  | S n', String _ s' => drop n' s'
  end.

(** [s[:n]] for [0 <= n] *)
Fixpoint take (n : nat) (s : string) : string :=
  match n, s with
  | O, _ => EmptyString
  | S _, EmptyString => EmptyString
  | S n', String c s' => String c (take n' s')
  end.

(** [s[:stop]] where [stop] is [None] or an integer; a negative [stop]
    counts from the end. *)
Definition slice_to (s : string) (stop : option Z) : string :=
  match stop with
  | None => s
  | Some k => if k <? 0 then take (Z.to_nat (len s + k)) s
              else take (Z.to_nat k) s
  end.

(** The lowest index [i >= pos] at which [sub] occurs in the text whose
    suffix from [pos] on is [s]; [-1] when there is none. *)
Fixpoint find_at (s sub : string) (pos : Z) : Z :=
  if startswith s sub then pos
  else match s with
       | EmptyString => -1
       | String _ s' => find_at s' sub (pos + 1)
       end.

(** [s.find(sub, start)] *)
Definition find (s sub : string) (start : Z) : Z :=
  let start := if start <? 0 then Z.max 0 (len s + start) else start in
  if len s <? start then -1
  else find_at (drop (Z.to_nat start) s) sub start.

(** [s[i]] for [0 <= i < len(s)] *)
Definition char_at (s : string) (i : Z) : option ascii :=
  String.get (Z.to_nat i) s.

(** One character of [s.lower()]: the letters A-Z and the capital letters of
    Latin-1 (all of 192-222 but the multiplication sign 215). *)
Definition lower_char (c : ascii) : ascii :=
  let n := nat_of_ascii c in
  if ((65 <=? n) && (n <=? 90)
      || (192 <=? n) && (n <=? 222) && negb (n =? 215))%nat
  then ascii_of_nat (n + 32) else c.

(** [s.lower()] *)
Fixpoint lower (s : string) : string :=
  match s with
  | EmptyString => EmptyString
  | String c s' => String (lower_char c) (lower s')
  end.

(** [sep.join(l)] *)
Fixpoint join (sep : string) (l : list string) : string :=
  match l with
  | [] => EmptyString
  | [x] => x
  | x :: rest => x ++ sep ++ join sep rest
  end.

(** [re.search(r"\S", s)]: the index of the first character that is not
    white space. *)
Fixpoint first_nonspace_at (s : string) (pos : Z) : option Z :=
  match s with
  | EmptyString => None
  | String c s' => if isspace c then first_nonspace_at s' (pos + 1)
                   else Some pos
  end.

End PyStr.

(** ** Insertion-ordered dictionaries with string keys *)

Module PyDict.

Section Dict.
Context {V : Type}.

Definition t : Type := list (string * V).

(** [d.get(k)]; [None] stands for a missing key. *)
Fixpoint get (d : t) (k : string) : option V :=
  match d with
  | [] => None
  | (k', v) :: d' => if String.eqb k k' then Some v else get d' k
  end.

(** [k in d] *)
Definition mem (d : t) (k : string) : bool :=
  match get d k with Some _ => true | None => false end.

(** [d[k] = v]: an existing key keeps its place, a new key goes last. *)
Fixpoint set (d : t) (k : string) (v : V) : t :=
  match d with
  | [] => [(k, v)]
  | (k', v') :: d' =>
      if String.eqb k k' then (k', v) :: d' else (k', v') :: set d' k v
  end.

(** [dict.fromkeys(keys, v)] *)
Definition fromkeys (keys : list string) (v : V) : t :=
  fold_left (fun d k => set d k v) keys [].

End Dict.

Arguments t : clear implicits.

End PyDict.

(** ** The regular expressions of RawConfigParser *)

Module Re.

Import PyStr.

(** The longest [h] made of characters other than LF such that [s] is [h]
    followed by a closing bracket: what a greedy [.+] (or [.*]) keeps once
    the engine has backtracked to the last bracket it can reach. *)
Fixpoint before_last_bracket (s : string) : option string :=
  match s with
  | EmptyString => None
  | String c s' =>
      if is_newline c then None
      else match before_last_bracket s' with
           | Some h => Some (String c h)
           | None => if Ascii.eqb c "]" then Some EmptyString else None
           end
  end.

(** [SECTCRE.match(value)]: an opening bracket, the greedy non-empty group
    [header] and a closing bracket; the result is the group [header]. *)
Definition SECTCRE_match (value : string) : option string :=
  match value with
  | String "[" rest =>
      match before_last_bracket rest with
      | Some (String c h) => Some (String c h)
      | _ => None
      end
  | _ => None
  end.

(** The text up to the first LF, and what follows it (LF included). *)
Fixpoint span_line (s : string) : string * string :=
  match s with
  | EmptyString => (EmptyString, EmptyString)
  | String c s' =>
      if is_newline c then (EmptyString, s)
      else let (a, b) := span_line s' in (String c a, b)
  end.

(** The group [value] followed by the end anchor, at [v]: the greedy
    any-character run goes to the first LF, and the anchor holds at the end
    of the text or before a last LF. *)
Definition value_to_eol (v : string) : option string :=
  let (a, b) := span_line v in
  match b with
  | EmptyString => Some a
  | String _ EmptyString => Some a
  | _ => None
  end.

(** What follows the group [option] in the pattern, anchored at [s]: white
    space, then optionally the delimiter (group [vi]), white space and the
    group [value], then the end anchor.  The result is the groups [vi] and
    [value], both [None] when the optional part takes no part. *)
Definition opt_tail (s : string) : option (option string * option string) :=
  match lstrip s with
  | EmptyString => Some (None, None)
  | String "=" t =>
      match value_to_eol (lstrip t) with
      | Some v => Some (Some "=", Some v)
      | None => None
      end
  | _ => None
  end.

(** [_optcre.match(value)] for the pattern that the constructor compiles from
    [_OPT_NV_TMPL] with the single delimiter [=] (allow_no_value is set).
    The lazy group [option] grows one character other than LF at a time
    until the rest matches [opt_tail].  The result is the triple of the
    groups [option], [vi] and [value]. *)
Fixpoint optcre_match (value : string)
  : option (string * option string * option string) :=
  match opt_tail value with
  | Some (vi, v) => Some (EmptyString, vi, v)
  | None =>
      match value with
      | EmptyString => None
      | String c s' =>
          if is_newline c then None
          else match optcre_match s' with
               | Some (o, vi, v) => Some (String c o, vi, v)
               | None => None
               end
      end
  end.

(** [NONSPACECRE.search(line)], as the start of the match. *)
Definition NONSPACECRE_search (line : string) : option Z :=
  first_nonspace_at line 0.

End Re.

(** ** The parser object *)

(** [sys.maxsize] *)
Definition maxsize : Z := 2 ^ 63 - 1.

(** What a section dictionary holds for an option: [None] for an option
    written without a value, the list of its physical lines while a file is
    being read, and a string once the lines have been joined. *)
Inductive optval : Type :=
| VNone
| VList (lines : list string)
| VStr (s : string).

(** A section: a dictionary from option names to values. *)
Definition section : Type := PyDict.t optval.

(** [repr(line)], kept as the line it is the repr of. *)
Inductive pyrepr : Type := Repr (line : string).

(** A member of the set [elements_added]: a section name, or a pair of the
    variable [sectname] (a string or [None]) and an option name. *)
Inductive element : Type :=
| ESect (sectname : string)
| EOpt (sectname : option string) (optname : string).

Definition sectname_eqb (a b : option string) : bool :=
  match a, b with
  | Some x, Some y => String.eqb x y
  | None, None => true
  | _, _ => false
  end.

Definition element_eqb (a b : element) : bool :=
  match a, b with
  | ESect x, ESect y => String.eqb x y
  | EOpt x o, EOpt y p => sectname_eqb x y && String.eqb o p
  | _, _ => false
  end.

(** The exceptions that can leave [_read]. *)
Inductive exn : Type :=
| AttributeError
| KeyError (key : string)
| DuplicateSectionError (sectname : string) (lineno : Z)
| DuplicateOptionError (sectname : option string) (optname : string)
    (lineno : Z)
| ParsingError (errors : list (Z * pyrepr)).

(** The fields of the parser that [_read] reads or writes.  [_proxies] is
    written but never read by [_read] and is left out. *)
Record parser : Type := mkParser {
  _comment_prefixes : list string;
  _inline_comment_prefixes : list string;
  _strict : bool;
  _empty_lines_in_values : bool;
  default_section : string;
  _sections : PyDict.t section;
  _defaults : section
}.

(** [customConfigParser.__init__]: the base constructor is called with
    [allow_no_value=True], [delimiters=("=",)], [comment_prefixes=()] and
    [strict=False]; the other arguments keep their defaults
    ([inline_comment_prefixes=None], [empty_lines_in_values=True],
    [default_section="DEFAULT"]).  The option pattern that the first two
    arguments select is [Re.optcre_match]. *)
Definition customConfigParser_init : parser :=
  {| _comment_prefixes := [];
     _inline_comment_prefixes := [];
     _strict := false;
     _empty_lines_in_values := true;
     default_section := "DEFAULT";
     _sections := [];
     _defaults := [] |}.

(** [optionxform] *)
Definition optionxform (optionstr : string) : string := PyStr.lower optionstr.

(** [cursect] is a reference to a dictionary owned by the parser, either
    [self._defaults] or [self._sections[name]]; it is modelled by the place
    where the dictionary is stored. *)
Inductive sectref : Type :=
| RDefaults
| RSection (name : string).

(** The dictionary a reference denotes.  [_read] only makes references to
    sections that exist (lemma [cursect_bound] below), so that the empty
    dictionary of the last case is never returned. *)
Definition deref (self : parser) (r : sectref) : section :=
  match r with
  | RDefaults => _defaults self
  | RSection name =>
      match PyDict.get (_sections self) name with
      | Some d => d
      | None => []
      end
  end.

Definition with_sections (self : parser) (s : PyDict.t section) : parser :=
  {| _comment_prefixes := _comment_prefixes self;
     _inline_comment_prefixes := _inline_comment_prefixes self;
     _strict := _strict self;
     _empty_lines_in_values := _empty_lines_in_values self;
     default_section := default_section self;
     _sections := s;
     _defaults := _defaults self |}.

Definition with_defaults (self : parser) (d : section) : parser :=
  {| _comment_prefixes := _comment_prefixes self;
     _inline_comment_prefixes := _inline_comment_prefixes self;
     _strict := _strict self;
     _empty_lines_in_values := _empty_lines_in_values self;
     default_section := default_section self;
     _sections := _sections self;
     _defaults := d |}.

(** The parser after the dictionary behind [r] has been mutated into [d]. *)
Definition store (self : parser) (r : sectref) (d : section) : parser :=
  match r with
  | RDefaults => with_defaults self d
  | RSection name => with_sections self (PyDict.set (_sections self) name d)
  end.

(** The local variables of [_read] that live across lines. *)
Record locals : Type := mkLocals {
  elements_added : list element;
  cursect : option sectref;
  sectname : option string;
  optname : option string;
  indent_level : Z;
  e : option (list (Z * pyrepr))
}.

Definition locals_init : locals :=
  {| elements_added := [];
     cursect := None;
     sectname := None;
     optname := None;
     indent_level := 0;
     e := None |}.

(** [x in elements_added] and [elements_added.add(x)] *)
Definition added (s : list element) (x : element) : bool :=
  existsb (element_eqb x) s.

Definition add (s : list element) (x : element) : list element :=
  if added s x then s else x :: s.

(** [_handle_error]: the ParsingError is created on first use and the pair
    of the line number and the repr of the line is appended to it.  The
    source name [fpname], which the error only carries, is left out of the
    model: it is taken to be a name that is not empty, as the name of a file
    is ([ParsingError] refuses an empty source with ValueError). *)
Definition _handle_error (exc : option (list (Z * pyrepr)))
    (lineno : Z) (line : string) : option (list (Z * pyrepr)) :=
  match exc with
  | None => Some [(lineno, Repr line)]
  | Some errors => Some (errors ++ [(lineno, Repr line)])%list
  end.

(** The truth value of [optname]: neither [None] nor the empty string. *)
Definition truthy (o : option string) : option string :=
  match o with
  | Some (String c s) => Some (String c s)
  | _ => None
  end.

(** ** Comment stripping (the head of the loop body of [_read]) *)

Import PyStr.

(** [line[i].isspace()] *)
Definition isspace_at (line : string) (i : Z) : bool :=
  match char_at line i with
  | Some c => isspace c
  | None => false
  end.

(** The [for prefix, index in inline_prefixes.items()] loop: every prefix is
    moved to its next occurrence, prefixes that occur no more are dropped,
    and [comment_start] is lowered to each occurrence that is at column 0 or
    follows white space. *)
Definition scan_prefixes (line : string) (inline_prefixes : PyDict.t Z)
    (comment_start : Z) : PyDict.t Z * Z :=
  fold_left
    (fun (acc : PyDict.t Z * Z) (item : string * Z) =>
       let (next_prefixes, comment_start) := acc in
       let (prefix, index) := item in
       let line_index := find line prefix (index + 1) in
       if line_index =? -1 then acc
       else
         (PyDict.set next_prefixes prefix line_index,
          if (line_index =? 0)
             || ((0 <? line_index) && isspace_at line (line_index - 1))
          then Z.min comment_start line_index
          else comment_start))
    inline_prefixes ([], comment_start).

(** The [while comment_start == sys.maxsize and inline_prefixes] loop;
    [None] when [fuel] rounds do not end it. *)
Fixpoint inline_loop (fuel : nat) (line : string)
    (inline_prefixes : PyDict.t Z) (comment_start : Z) : option Z :=
  if (comment_start =? maxsize)
     && match inline_prefixes with [] => false | _ :: _ => true end
  then match fuel with
       | O => None
       | S fuel' =>
           let (next_prefixes, comment_start') :=
             scan_prefixes line inline_prefixes comment_start in
           inline_loop fuel' line next_prefixes comment_start'
       end
  else Some comment_start.

(** The value of [comment_start] at line 68 of the source: [Some None] for
    Python's [None], and [None] if the while loop did not end within the
    number of rounds that lemma [comment_start_of_total] shows to suffice. *)
Definition comment_start_of (self : parser) (line : string)
  : option (option Z) :=
  match inline_loop (S (S (String.length line))) line
          (PyDict.fromkeys (_inline_comment_prefixes self) (-1)) maxsize with
  | None => None
  | Some comment_start =>
      let comment_start :=
        if existsb (startswith (strip line)) (_comment_prefixes self)
        then 0 else comment_start in
      Some (if comment_start =? maxsize then None else Some comment_start)
  end.

(** ** One iteration of the loop over the lines *)

Inductive step_result : Type :=
| Next (self : parser) (st : locals)
| Raise (self : parser) (x : exn)
| Diverge.

Definition set_indent (st : locals) (i : Z) : locals :=
  {| elements_added := elements_added st; cursect := cursect st;
     sectname := sectname st; optname := optname st;
     indent_level := i; e := e st |}.

(** [cast(list, cursect[optname]).append(x)] *)
Definition append_to (self : parser) (st : locals) (r : sectref)
    (o x : string) : step_result :=
  match PyDict.get (deref self r) o with
  | None => Raise self (KeyError o)
  | Some (VList l) =>
      Next (store self r (PyDict.set (deref self r) o (VList (l ++ [x])%list)))
           st
  | Some VNone => Raise self AttributeError
  | Some (VStr _) => Raise self AttributeError
  end.

(** Lines 69-77: the line is empty once comments and white space are gone. *)
Definition read_blank (self : parser) (st : locals)
    (comment_start : option Z) : step_result :=
  if _empty_lines_in_values self then
    match comment_start, cursect st, truthy (optname st) with
    | None, Some r, Some o =>
        match PyDict.get (deref self r) o with
        | None => Raise self (KeyError o)
        | Some VNone => Next self st
        | Some _ => append_to self st r o EmptyString
        end
    | _, _, _ => Next self st
    end
  else Next self (set_indent st maxsize).

(** Lines 87-103: a section header named [name]. *)
Definition read_header (self : parser) (st : locals) (lineno : Z)
    (cur_indent_level : Z) (name : string) : step_result :=
  if PyDict.mem (_sections self) name then
    if _strict self && added (elements_added st) (ESect name)
    then Raise self (DuplicateSectionError name lineno)
    else Next self
           {| elements_added := add (elements_added st) (ESect name);
              cursect := Some (RSection name);
              sectname := Some name; optname := None;
              indent_level := cur_indent_level; e := e st |}
  else if String.eqb name (default_section self) then
    Next self
      {| elements_added := elements_added st;
         cursect := Some RDefaults;
         sectname := Some name; optname := None;
         indent_level := cur_indent_level; e := e st |}
  else
    Next (with_sections self (PyDict.set (_sections self) name []))
      {| elements_added := add (elements_added st) (ESect name);
         cursect := Some (RSection name);
         sectname := Some name; optname := None;
         indent_level := cur_indent_level; e := e st |}.

(** The name of the section made up for lines that come before any
    header. *)
Definition fake_header : string := "TotallyFakeSectionHeader".

(** Lines 105-114: no section is open and the line is not a header. *)
Definition read_headerless (self : parser) (st : locals)
    (cur_indent_level : Z) : step_result :=
  Next (with_sections self (PyDict.set (_sections self) fake_header []))
    {| elements_added := add (elements_added st) (ESect fake_header);
       cursect := Some (RSection fake_header);
       sectname := Some fake_header; optname := None;
       indent_level := cur_indent_level; e := e st |}.

(** Lines 118-143: a section is open and the line is not a header. *)
Definition read_option (self : parser) (st : locals) (r : sectref)
    (lineno : Z) (cur_indent_level : Z) (line value : string) : step_result :=
  match Re.optcre_match value with
  | Some (optname0, _vi, optval) =>
      let e1 := match optname0 with
                | EmptyString => _handle_error (e st) lineno line
                | _ => e st
                end in
      let optname1 := optionxform (rstrip optname0) in
      if _strict self
         && added (elements_added st) (EOpt (sectname st) optname1)
      then Raise self (DuplicateOptionError (sectname st) optname1 lineno)
      else
        let st' :=
          {| elements_added :=
               add (elements_added st) (EOpt (sectname st) optname1);
             cursect := Some r;
             sectname := sectname st; optname := Some optname1;
             indent_level := cur_indent_level; e := e1 |} in
        let cur := deref self r in
        match optval with
        | Some optval =>
            if PyDict.mem cur optname1 then Next self st'
            else Next (store self r
                         (PyDict.set cur optname1 (VList [strip optval])))
                      st'
        | None =>
            if PyDict.mem cur optname1 then Next self st'
            else Next (store self r (PyDict.set cur optname1 VNone)) st'
        end
  | None =>
      Next self
        {| elements_added := elements_added st; cursect := Some r;
           sectname := sectname st; optname := optname st;
           indent_level := cur_indent_level;
           e := _handle_error (e st) lineno line |}
  end.

(** Lines 79-80: [first_nonspace.start() if first_nonspace else 0] *)
Definition indent_of (line : string) : Z :=
  match Re.NONSPACECRE_search line with
  | Some start => start
  | None => 0
  end.

(** Lines 79-143: the line is not empty. *)
Definition read_content (self : parser) (st : locals) (lineno : Z)
    (line value : string) : step_result :=
  let cur_indent_level := indent_of line in
  match cursect st, truthy (optname st),
        indent_level st <? cur_indent_level with
  | Some r, Some o, true => append_to self st r o value
  | _, _, _ =>
      match Re.SECTCRE_match value with
      | Some name => read_header self st lineno cur_indent_level name
      | None =>
          match cursect st with
          | None => read_headerless self st cur_indent_level
          | Some r => read_option self st r lineno cur_indent_level line value
          end
      end
  end.

(** The body of the loop over the lines, lines 48-143. *)
Definition read_line (self : parser) (st : locals) (lineno : Z)
    (line : string) : step_result :=
  match comment_start_of self line with
  | None => Diverge
  | Some comment_start =>
      let value := strip (slice_to line comment_start) in
      match value with
      | EmptyString => read_blank self st comment_start
      | _ => read_content self st lineno line value
      end
  end.

(** [for lineno, line in enumerate(fp, start=lineno)] *)
Fixpoint read_lines (self : parser) (st : locals) (lineno : Z)
    (fp : list string) : step_result :=
  match fp with
  | [] => Next self st
  | line :: rest =>
      match read_line self st lineno line with
      | Next self' st' => read_lines self' st' (lineno + 1) rest
      | stop => stop
      end
  end.

(** ** End of stream *)

(** The loop body of [_join_multiline_values]; [before_read] of the
    interpolation of a RawConfigParser returns its value unchanged. *)
Definition join_value (val : optval) : optval :=
  match val with
  | VList l => VStr (rstrip (join (String LF EmptyString) l))
  | _ => val
  end.

Definition join_section (options : section) : section :=
  map (fun kv : string * optval => (fst kv, join_value (snd kv))) options.

Definition _join_multiline_values (self : parser) : parser :=
  {| _comment_prefixes := _comment_prefixes self;
     _inline_comment_prefixes := _inline_comment_prefixes self;
     _strict := _strict self;
     _empty_lines_in_values := _empty_lines_in_values self;
     default_section := default_section self;
     _sections :=
       map (fun kv : string * section => (fst kv, join_section (snd kv)))
           (_sections self);
     _defaults := join_section (_defaults self) |}.

(** How a call of [_read] ends. *)
Inductive outcome : Type :=
| Returns
| Raises (x : exn)
| Hangs.

(** [customConfigParser._read(fp, fpname)]: the parser as the call leaves
    it, and how the call ends.  [fp] is the sequence of lines that iterating
    over the file yields. *)
Definition _read (self : parser) (fp : list string) : parser * outcome :=
  match read_lines self locals_init 1 fp with
  | Next self' st =>
      let self'' := _join_multiline_values self' in
      match e st with
      | Some errors => (self'', Raises (ParsingError errors))
      | None => (self'', Returns)
      end
  | Raise self' x => (self', Raises x)
  | Diverge => (self, Hangs)
  end.

(** The lines that a text file object yields for a text whose line ends are
    LF: every line keeps its LF, the last one may lack it. *)
Fixpoint fp_lines_from (cur : string) (text : string) : list string :=
  match text with
  | EmptyString =>
      match cur with
      | EmptyString => []
      | _ => [cur]
      end
  | String c text' =>
      if is_newline c
      then (cur ++ String c EmptyString) :: fp_lines_from EmptyString text'
      else fp_lines_from (cur ++ String c EmptyString) text'
  end.

Definition fp_lines (text : string) : list string :=
  fp_lines_from EmptyString text.

(** [self._sections[section][option]], [None] when a key is missing. *)
Definition stored (self : parser) (sect opt : string) : option optval :=
  match PyDict.get (_sections self) sect with
  | Some d => PyDict.get d opt
  | None => None
  end.

(** A text with the line ends written [\n] is given as its lines. *)
Definition nl (lines : list string) : string :=
  String.concat EmptyString
    (map (fun l => l ++ String LF EmptyString) lines).

(** ** Example parsers and states *)

(** The line end. *)
Definition NL : string := String LF EmptyString.

(** The parser and the local variables once the two lines [[s]] and [a=1]
    have been read by a new parser. *)
Definition self_s_a : parser :=
  with_sections customConfigParser_init [("s", [("a", VList ["1"])])].

Definition st_s_a : locals :=
  {| elements_added := [EOpt (Some "s") "a"; ESect "s"];
     cursect := Some (RSection "s");
     sectname := Some "s"; optname := Some "a";
     indent_level := 0; e := None |}.

Definition self_s_flag : parser :=
  with_sections customConfigParser_init [("s", [("a", VNone)])].

Definition with_inline_comment_prefixes (self : parser)
    (prefixes : list string) : parser :=
  {| _comment_prefixes := _comment_prefixes self;
     _inline_comment_prefixes := prefixes;
     _strict := _strict self;
     _empty_lines_in_values := _empty_lines_in_values self;
     default_section := default_section self;
     _sections := _sections self;
     _defaults := _defaults self |}.

(** ** Predicates on lines and states *)

(** [comment_start] and [value] as line 68 leaves them. *)
Definition keeps (self : parser) (line : string)
    (comment_start : option Z) (value : string) : Prop :=
  comment_start_of self line = Some comment_start /\
  strip (slice_to line comment_start) = value.

(** The test of line 81 holds: an option [o] of the section behind [r] is
    open and the line is indented deeper than the baseline. *)
Definition continues (st : locals) (line : string) (r : sectref)
    (o : string) : Prop :=
  cursect st = Some r /\ truthy (optname st) = Some o /\
  indent_level st < indent_of line.

(** The line reaches line 120 of the source: it is not empty, it does not
    continue an open option, it is not a section header, the section behind
    [r] is open, and the option pattern matches it with [o] for the group
    [option] and [v] for the group [value]. *)
Definition option_line (self : parser) (st : locals) (line : string)
    (r : sectref) (o : string) (v : option string) : Prop :=
  exists cs value vi,
    keeps self line cs value /\ value <> EmptyString /\
    cursect st = Some r /\
    (truthy (optname st) = None \/ indent_of line <= indent_level st) /\
    Re.SECTCRE_match value = None /\
    Re.optcre_match value = Some (o, vi, v).

(** The place of the section that a header named [n] opens. *)
Definition ref_of (self : parser) (n : string) : sectref :=
  if PyDict.mem (_sections self) n then RSection n else RDefaults.

(** What holds between the parser and the local variables of [_read] after
    any number of lines: while no section is open no option has been seen;
    the open section is the one that [sectname] names; and every option
    seen is held by the section it was seen in. *)
Record inv (self : parser) (st : locals) : Prop := {
  inv_none :
    cursect st = None ->
    forall sn o, added (elements_added st) (EOpt sn o) = false;
  inv_cur :
    forall r, cursect st = Some r ->
    exists n, sectname st = Some n /\ r = ref_of self n /\
              (PyDict.mem (_sections self) n = false ->
               n = default_section self);
  inv_seen :
    forall sn o, added (elements_added st) (EOpt sn o) = true ->
    exists n, sn = Some n /\
              PyDict.mem (deref self (ref_of self n)) o = true /\
              (PyDict.mem (_sections self) n = false ->
               n = default_section self)
}.

(** [self'] has the sections of [self], each with at least the options it
    has in [self]. *)
Definition grows (self self' : parser) : Prop :=
  default_section self' = default_section self /\
  _strict self' = _strict self /\
  (forall n, PyDict.mem (_sections self') n = PyDict.mem (_sections self) n) /\
  (forall r o, PyDict.mem (deref self r) o = true ->
               PyDict.mem (deref self' r) o = true).

(** The entries of the ParsingError under construction. *)
Definition errors_of (exc : option (list (Z * pyrepr))) : list (Z * pyrepr) :=
  match exc with
  | Some errors => errors
  | None => []
  end.

(** [prefix] occurs in [line] at column [k]. *)
Definition occurs_at (line prefix : string) (k : Z) : Prop :=
  0 <= k <= len line /\ startswith (drop (Z.to_nat k) line) prefix = true.

(** An inline comment may start at column [k] of [line]: [prefix] occurs
    there, at column 0 or right after white space. *)
Definition comment_at (line prefix : string) (k : Z) : Prop :=
  occurs_at line prefix k /\ (k = 0 \/ isspace_at line (k - 1) = true).

(** ** Predicates for the properties of whole reads *)

(** [v'] is [v], or [v] is a list of lines and [v'] is that list with lines
    appended. *)
Definition extends (v v' : optval) : Prop :=
  v' = v \/ exists l l', v = VList l /\ v' = VList (l ++ l')%list.

(** The value is not a list of lines: it is [None] or a string. *)
Definition joined (v : optval) : Prop :=
  match v with
  | VList _ => False
  | _ => True
  end.

(** The text holds a line feed. *)
Fixpoint has_lf (s : string) : bool :=
  match s with
  | EmptyString => false
  | String c s' => is_newline c || has_lf s'
  end.

(** A line as a file object yields it: a line feed can only be its last
    character. *)
Fixpoint line_ok (line : string) : bool :=
  match line with
  | EmptyString => true
  | String c EmptyString => true
  | String c rest => negb (is_newline c) && line_ok rest
  end.

(** The option that [optname] names is held by the open section. *)
Definition open_present (self : parser) (st : locals) : Prop :=
  forall r o, cursect st = Some r -> optname st = Some o ->
              PyDict.mem (deref self r) o = true.

(** The option names of a section are as [optionxform] leaves them. *)
Definition names_normal (d : section) : bool :=
  forallb (fun kv : string * optval =>
             String.eqb (optionxform (fst kv)) (fst kv)) d.

(** Every option name that the parser holds is as [optionxform] leaves
    it. *)
Definition keys_normal (self : parser) : bool :=
  names_normal (_defaults self)
  && forallb (fun kv : string * section => names_normal (snd kv))
             (_sections self).

(** The character [ch] occurs in [s]. *)
Fixpoint has_char (ch : ascii) (s : string) : bool :=
  match s with
  | EmptyString => false
  | String c s' => Ascii.eqb c ch || has_char ch s'
  end.

(** A parser as [customConfigParser.__init__] configures it, whatever it
    holds: no comment prefix of either kind, not strict. *)
Definition as_constructed (self : parser) : Prop :=
  _comment_prefixes self = [] /\ _inline_comment_prefixes self = [] /\
  _strict self = false.

(** * Properties *)

(** ** Dictionaries *)

Section DictFacts.
Context {V : Type}.
Implicit Types (d : PyDict.t V) (k : string) (v : V).

Lemma get_set_same d k v : PyDict.get (PyDict.set d k v) k = Some v.
Proof.
  induction d as [|[k' v'] d IH]; simpl.
  - now rewrite String.eqb_refl.
  - destruct (String.eqb k k') eqn:E; simpl; rewrite E; auto.
Qed.

Lemma get_set_other d k k' v :
  k <> k' -> PyDict.get (PyDict.set d k v) k' = PyDict.get d k'.
Proof.
  intros Hne. induction d as [|[k0 v0] d IH]; simpl.
  - destruct (String.eqb k' k) eqn:E; auto.
    apply String.eqb_eq in E. congruence.
  - destruct (String.eqb k k0) eqn:E; simpl.
    + apply String.eqb_eq in E. subst k0.
      destruct (String.eqb k' k) eqn:E'; auto.
      apply String.eqb_eq in E'. congruence.
    + now rewrite IH.
Qed.

Lemma get_set d k k' v :
  PyDict.get (PyDict.set d k v) k' =
  if String.eqb k k' then Some v else PyDict.get d k'.
Proof.
  destruct (String.eqb k k') eqn:E.
  - apply String.eqb_eq in E. subst. apply get_set_same.
  - apply String.eqb_neq in E. now apply get_set_other.
Qed.

Lemma mem_set d k k' v :
  PyDict.mem (PyDict.set d k v) k' = String.eqb k k' || PyDict.mem d k'.
Proof.
  unfold PyDict.mem. rewrite get_set. now destruct (String.eqb k k').
Qed.

Lemma Forall_set (P : string * V -> Prop) d k v :
  (forall k0 v0, P (k0, v0) -> P (k0, v)) ->
  Forall P d -> P (k, v) -> Forall P (PyDict.set d k v).
Proof.
  intros Hk Hd Hv. induction Hd as [|[k' v'] d Hx Hd IH]; simpl.
  - now constructor.
  - destruct (String.eqb k k'); constructor; eauto.
Qed.

End DictFacts.

(** ** The inline-comment loop ends *)

Lemma length_drop n s :
  String.length (drop n s) = (String.length s - n)%nat.
Proof.
  revert s. induction n as [|n IH]; intros [|c s]; simpl; auto with arith.
Qed.

Lemma find_at_bounds s sub pos :
  find_at s sub pos = -1 \/
  (pos <= find_at s sub pos <= pos + len s).
Proof.
  revert pos. unfold len.
  induction s as [|c s IH]; intros pos; cbn [find_at String.length].
  - destruct (startswith "" sub); [right; lia | now left].
  - destruct (startswith (String c s) sub); [right; lia|].
    destruct (IH (pos + 1)) as [->|H]; [now left | right; lia].
Qed.

Lemma find_bounds line sub start :
  0 <= start ->
  find line sub start = -1 \/ (start <= find line sub start <= len line).
Proof.
  intros Hs. unfold find.
  destruct (start <? 0) eqn:E; [apply Z.ltb_lt in E; lia|].
  destruct (len line <? start) eqn:E'; [now left|].
  apply Z.ltb_ge in E'.
  destruct (find_at_bounds (drop (Z.to_nat start) line) sub start) as [->|H];
    [now left | right].
  unfold len in *. rewrite length_drop in H. lia.
Qed.

(** The indices kept by one round lie after the ones it started from. *)
Lemma scan_prefixes_bounds line lb d cs :
  -1 <= lb ->
  Forall (fun kv : string * Z => lb <= snd kv) d ->
  Forall (fun kv : string * Z => lb + 1 <= snd kv <= len line)
         (fst (scan_prefixes line d cs)).
Proof.
  intros Hlb Hd. unfold scan_prefixes.
  assert (Hacc : Forall (fun kv : string * Z => lb + 1 <= snd kv <= len line)
                        (fst (@nil (string * Z), cs))) by constructor.
  revert Hacc. generalize (@nil (string * Z), cs).
  induction Hd as [|[prefix index] d Hx Hd IH]; intros [next c] Hacc; simpl.
  - exact Hacc.
  - apply IH. simpl in Hx.
    destruct (find line prefix (index + 1) =? -1) eqn:E; [exact Hacc|].
    apply Z.eqb_neq in E. simpl in *.
    destruct (find_bounds line prefix (index + 1)) as [H|H]; [lia|congruence|].
    apply Forall_set; simpl; auto; lia.
Qed.

Lemma inline_loop_ends fuel : forall line d cs lb,
  -1 <= lb ->
  Forall (fun kv : string * Z => lb <= snd kv <= len line) d ->
  len line - lb < Z.of_nat fuel ->
  inline_loop fuel line d cs <> None.
Proof.
  induction fuel as [|fuel IH]; intros line d cs lb Hlb Hd Hfuel; simpl.
  - destruct d as [|[k i] d]; [rewrite andb_false_r; discriminate|].
    inversion Hd; subst. simpl in *. lia.
  - destruct ((cs =? maxsize) && _); [|discriminate].
    destruct (scan_prefixes line d cs) as [next cs'] eqn:E.
    apply (IH line next cs' (lb + 1)); [lia | | lia].
    change next with (fst (next, cs')). rewrite <- E.
    apply scan_prefixes_bounds; [lia|].
    eapply Forall_impl; [|exact Hd]. simpl. intros; lia.
Qed.

Lemma fromkeys_bounds (keys : list string) (n : Z) (P : string * Z -> Prop) :
  (forall k, P (k, n)) -> Forall P (PyDict.fromkeys keys n).
Proof.
  intros HP. unfold PyDict.fromkeys.
  assert (Hacc : Forall P (@nil (string * Z))) by constructor.
  revert Hacc. generalize (@nil (string * Z)).
  induction keys as [|k keys IH]; intros acc Hacc; simpl; auto.
  apply IH. apply Forall_set; auto.
Qed.

(** The while loop of lines 51-60 ends on every line, for every set of
    prefixes: [comment_start_of] is total. *)
Lemma comment_start_of_total self line :
  exists comment_start, comment_start_of self line = Some comment_start.
Proof.
  unfold comment_start_of.
  destruct (inline_loop _ _ _ _) eqn:E; [eauto|].
  exfalso. revert E. apply (inline_loop_ends _ _ _ _ (-1)); [lia| |].
  - apply fromkeys_bounds. intros k. simpl. unfold len. lia.
  - unfold len. lia.
Qed.

(** ** References into the parser *)

Lemma deref_store_same self r d : deref (store self r d) r = d.
Proof.
  destruct r as [|name]; simpl; auto. now rewrite get_set_same.
Qed.

(** ** Example inputs *)

Example self_s_a_reached :
  read_lines customConfigParser_init locals_init 1
    (fp_lines (nl ["[s]"; "a=1"])) = Next self_s_a st_s_a.
Proof. reflexivity. Qed.

(** ** What lines 48-68 keep of a line *)

Lemma read_line_content self st lineno line cs value :
  keeps self line cs value -> value <> EmptyString ->
  read_line self st lineno line = read_content self st lineno line value.
Proof.
  intros [Hcs Hv] Hne. unfold read_line. rewrite Hcs, Hv.
  destruct value; congruence.
Qed.

Lemma read_line_blank self st lineno line cs :
  keeps self line cs EmptyString ->
  read_line self st lineno line = read_blank self st cs.
Proof.
  intros [Hcs Hv]. unfold read_line. now rewrite Hcs, Hv.
Qed.

Lemma read_content_continues self st lineno line value r o :
  continues st line r o ->
  read_content self st lineno line value = append_to self st r o value.
Proof.
  intros (Hr & Ho & Hi). unfold read_content. rewrite Hr, Ho.
  apply Z.ltb_lt in Hi. now rewrite Hi.
Qed.

(** ** The parser as constructed strips no comment *)

Lemma init_comment_start line :
  comment_start_of customConfigParser_init line = Some None.
Proof. reflexivity. Qed.

Lemma init_keeps line :
  keeps customConfigParser_init line None (strip line).
Proof. split; reflexivity. Qed.

Lemma no_prefixes_keeps self line :
  _inline_comment_prefixes self = [] -> _comment_prefixes self = [] ->
  keeps self line None (strip line).
Proof.
  intros Hi Hc. split; [|reflexivity].
  unfold comment_start_of. now rewrite Hi, Hc.
Qed.

(** ** Continuation lines *)

(** C5 as amended (multi-line continuation).  A new parser reads the four
    lines [[s]], [a=1], [  2], [  3] into the single value 1 LF 2 LF 3 (the
    five characters, LF having code 010) for option [a] of section [s] and
    returns.  In every state of every parser, a line that is not empty once
    comments are stripped and that is indented strictly deeper than the
    baseline of the open option, when that option holds a line sequence,
    has its trimmed content appended to the sequence, and nothing else
    changes. *)
Theorem C5_continuation_appends :
  (let r := _read customConfigParser_init
              (fp_lines (nl ["[s]"; "a=1"; "  2"; "  3"])) in
   snd r = Returns /\
   stored (fst r) "s" "a"
   = Some (VStr (String "1" (String "010" (String "2" (String "010" "3"))))))
  /\
  (forall self st lineno line cs value r o l,
     keeps self line cs value -> value <> EmptyString ->
     continues st line r o ->
     PyDict.get (deref self r) o = Some (VList l) ->
     exists self',
       read_line self st lineno line = Next self' st /\
       self' = store self r
                 (PyDict.set (deref self r) o (VList (l ++ [value])%list)) /\
       PyDict.get (deref self' r) o = Some (VList (l ++ [value])%list)).
Proof.
  split; [split; reflexivity|].
  intros self st lineno line cs value r o l Hk Hne Hc Hget.
  eexists. split; [|split; [reflexivity|]].
  - rewrite (read_line_content _ _ _ _ _ _ Hk Hne).
    rewrite (read_content_continues _ _ _ _ _ _ _ Hc).
    unfold append_to. now rewrite Hget.
  - rewrite deref_store_same. apply get_set_same.
Qed.

Lemma C5_continuation_appends_witness :
  exists self',
    read_line self_s_a st_s_a 3 ("  2" ++ NL) = Next self' st_s_a /\
    self' = store self_s_a (RSection "s")
              (PyDict.set (deref self_s_a (RSection "s")) "a"
                 (VList (["1"] ++ ["2"])%list)) /\
    PyDict.get (deref self' (RSection "s")) "a"
      = Some (VList (["1"] ++ ["2"])%list).
Proof.
  apply (proj2 C5_continuation_appends self_s_a st_s_a 3 ("  2" ++ NL)
           None "2" (RSection "s") "a" ["1"]).
  - split; reflexivity.
  - discriminate.
  - repeat split; reflexivity.
  - reflexivity.
Defined.

(** C5 as stated fails: not every deeper line is appended.  After the lines
    [[s]] and [a] of a new parser, option [a] is open with [None] stored for
    it; the line [  b] is not empty and is indented deeper than the
    baseline, and it is not appended to anything: the line is not read to
    its end, and the parser holds no line sequence for [a]. *)
Lemma C5_counterexample :
  read_lines customConfigParser_init locals_init 1
    (fp_lines (nl ["[s]"; "a"])) = Next self_s_flag st_s_a /\
  keeps self_s_flag ("  b" ++ NL) None "b" /\
  continues st_s_a ("  b" ++ NL) (RSection "s") "a" /\
  (forall self' st',
     read_line self_s_flag st_s_a 3 ("  b" ++ NL) <> Next self' st') /\
  stored (fst (_read customConfigParser_init
                 (fp_lines (nl ["[s]"; "a"; "  b"])))) "s" "a" = Some VNone.
Proof.
  repeat split; try reflexivity. intros self' st'. vm_compute. discriminate.
Qed.

(** C9 (continuation of a valueless option).  In every state of every
    parser, a line that is not empty and is indented strictly deeper than
    the baseline of an open option for which [None] is stored makes [_read]
    raise AttributeError at that line; the three lines [[s]], [a], [  b]
    are such an input for a new parser: the call ends with AttributeError,
    not with a ParsingError, and the values read so far are not joined. *)
Theorem C9_valueless_continuation_raises :
  (let r := _read customConfigParser_init
              (fp_lines (nl ["[s]"; "a"; "  b"])) in
   snd r = Raises AttributeError /\
   stored (fst r) "s" "a" = Some VNone) /\
  (forall self st lineno line cs value r o,
     keeps self line cs value -> value <> EmptyString ->
     continues st line r o ->
     PyDict.get (deref self r) o = Some VNone ->
     read_line self st lineno line = Raise self AttributeError).
Proof.
  split; [split; reflexivity|].
  intros self st lineno line cs value r o Hk Hne Hc Hget.
  rewrite (read_line_content _ _ _ _ _ _ Hk Hne).
  rewrite (read_content_continues _ _ _ _ _ _ _ Hc).
  unfold append_to. now rewrite Hget.
Qed.

Lemma C9_valueless_continuation_raises_witness :
  read_line self_s_flag st_s_a 3 ("  b" ++ NL)
    = Raise self_s_flag AttributeError.
Proof.
  apply (proj2 C9_valueless_continuation_raises self_s_flag st_s_a 3
           ("  b" ++ NL) None "b" (RSection "s") "a").
  - split; reflexivity.
  - discriminate.
  - repeat split; reflexivity.
  - reflexivity.
Defined.

(** C3 (no exception in the middle of the scan) fails on the code.  A new
    parser given the four lines [[s]], [a], [  b], [c=1] raises
    AttributeError at the third line: the fourth line is never read (option
    [c] is not stored), no value is joined, and the exception is not the
    aggregate ParsingError. *)
Theorem C3_raises_before_end_of_input :
  let fp := fp_lines (nl ["[s]"; "a"; "  b"; "c=1"]) in
  read_lines customConfigParser_init locals_init 1 (firstn 2 fp)
    = Next self_s_flag st_s_a /\
  read_line self_s_flag st_s_a 3 (nth 2 fp EmptyString)
    = Raise self_s_flag AttributeError /\
  _read customConfigParser_init fp = (self_s_flag, Raises AttributeError) /\
  stored (fst (_read customConfigParser_init fp)) "s" "c" = None.
Proof. repeat split; reflexivity. Qed.

(** ** Blank lines *)

(** C8 (blank line inside a value).  A new parser, for which blank lines in
    values are enabled, reads the four lines [[s]], [a=1], the empty line
    and [  2] into the value 1 LF LF 2 for option [a] of section [s].  For
    every parser, a line that is empty once comments are stripped changes
    the parser only by appending the empty string to the line sequence of
    the open option, and only when blank lines in values are enabled,
    [comment_start] is None (no comment was found on the line) and the open
    option holds a line sequence; under these conditions it does append. *)
Theorem C8_blank_line_in_value :
  (_empty_lines_in_values customConfigParser_init = true /\
   let r := _read customConfigParser_init
              (fp_lines (nl ["[s]"; "a=1"; ""; "  2"])) in
   snd r = Returns /\
   stored (fst r) "s" "a"
   = Some (VStr (String "1" (String "010" (String "010" "2"))))) /\
  (forall self st lineno line cs,
     keeps self line cs EmptyString ->
     (forall r o l,
        _empty_lines_in_values self = true -> cs = None ->
        cursect st = Some r -> truthy (optname st) = Some o ->
        PyDict.get (deref self r) o = Some (VList l) ->
        read_line self st lineno line
          = Next (store self r
                    (PyDict.set (deref self r) o
                       (VList (l ++ [EmptyString])%list))) st) /\
     (forall self' st',
        read_line self st lineno line = Next self' st' ->
        self' = self \/
        (_empty_lines_in_values self = true /\ cs = None /\
         exists r o l,
           cursect st = Some r /\ truthy (optname st) = Some o /\
           PyDict.get (deref self r) o = Some (VList l) /\
           self' = store self r
                     (PyDict.set (deref self r) o
                        (VList (l ++ [EmptyString])%list))))).
Proof.
  split; [repeat split; reflexivity|].
  intros self st lineno line cs Hk.
  rewrite (read_line_blank _ _ _ _ _ Hk). unfold read_blank. split.
  - intros r o l -> -> -> -> Hget. rewrite Hget.
    unfold append_to. now rewrite Hget.
  - intros self' st'.
    destruct (_empty_lines_in_values self);
      [|intros H; inversion H; now left].
    destruct cs as [c|]; [intros H; inversion H; now left|].
    destruct (cursect st) as [r|]; [|intros H; inversion H; now left].
    destruct (truthy (optname st)) as [o|];
      [|intros H; inversion H; now left].
    unfold append_to.
    destruct (PyDict.get (deref self r) o) as [[|l|s]|] eqn:Hget;
      intros H; inversion H; subst; [now left|].
    right. repeat split. now exists r, o, l.
Qed.

Lemma C8_blank_line_in_value_witness :
  read_line self_s_a st_s_a 3 NL
    = Next (store self_s_a (RSection "s")
              (PyDict.set (deref self_s_a (RSection "s")) "a"
                 (VList (["1"] ++ [EmptyString])%list))) st_s_a.
Proof.
  apply (proj1 (proj2 C8_blank_line_in_value self_s_a st_s_a 3 NL None
                  (conj eq_refl eq_refl))
           (RSection "s") "a" ["1"]); reflexivity.
Defined.

(** ** Comments in values *)

(** C7 as amended.  The parser as constructed has no comment prefix and no
    inline comment prefix, so that no line loses anything but its outer
    white space; the two lines [[s]], [a=1  # note] give option [a] of
    section [s] the value [1  # note], comment included. *)
Theorem C7_comment_kept_in_value :
  (forall line, keeps customConfigParser_init line None (strip line)) /\
  let r := _read customConfigParser_init
             (fp_lines (nl ["[s]"; "a=1  # note"])) in
  snd r = Returns /\ stored (fst r) "s" "a" = Some (VStr "1  # note").
Proof.
  split; [exact init_keeps | split; reflexivity].
Qed.

(** C7 as stated fails: the value stored for [a] is not [1]. *)
Lemma C7_counterexample :
  stored (fst (_read customConfigParser_init
                 (fp_lines (nl ["[s]"; "a=1  # note"])))) "s" "a"
  <> Some (VStr "1").
Proof. vm_compute. discriminate. Qed.

(** ** Option lines *)

Lemma read_line_option self st lineno line r o v :
  option_line self st line r o v ->
  exists value vi,
    Re.optcre_match value = Some (o, vi, v) /\
    read_line self st lineno line
      = read_option self st r lineno (indent_of line) line value.
Proof.
  intros (cs & value & vi & Hk & Hne & Hr & Hnc & Hs & Ho).
  exists value, vi. split; [exact Ho|].
  rewrite (read_line_content _ _ _ _ _ _ Hk Hne).
  unfold read_content. rewrite Hr, Hs.
  destruct Hnc as [-> | Hi]; [reflexivity|].
  apply Z.ltb_ge in Hi. rewrite Hi. now destruct (truthy (optname st)).
Qed.

(** An option line whose name the open section already holds leaves the
    parser as it is, and opens that name at the indentation of the line. *)
Lemma read_option_present self st lineno line r o v :
  option_line self st line r o v ->
  _strict self = false ->
  PyDict.mem (deref self r) (optionxform (rstrip o)) = true ->
  exists st',
    read_line self st lineno line = Next self st' /\
    cursect st' = Some r /\
    optname st' = Some (optionxform (rstrip o)) /\
    indent_level st' = indent_of line.
Proof.
  intros Hline Hstrict Hmem.
  destruct (read_line_option self st lineno line r o v Hline)
    as (value & vi & Ho & ->).
  unfold read_option. rewrite Ho, Hstrict, Hmem. simpl.
  destruct v; eexists; repeat split.
Qed.


Lemma option_line_a_2 :
  option_line self_s_a st_s_a ("a=2" ++ NL) (RSection "s") "a" (Some "2").
Proof.
  exists None, "a=2", (Some "=").
  repeat split; try reflexivity; try discriminate.
  right. vm_compute. discriminate.
Defined.


(** ** Lines that are not options *)

(** C2 as amended.  With [allow_no_value=True] a line without delimiter is
    an option without value: a new parser reads the four lines [[s]],
    [!!!bad!!!], [a=1], [???worse???] into section [s] with [a] equal to 1
    and the two other lines as options for which [None] is stored, and
    returns without reporting any error.  Lines that the parser does reject,
    such as those that start with the delimiter, are aggregated: on the four
    lines [[s]], [=bad], [a=1], [=worse] section [s] is filled with [a]
    equal to 1 and the call ends with one ParsingError that lists exactly
    the two lines, with their numbers 2 and 4, in file order. *)
Theorem C2_rejected_lines_aggregated :
  (let r := _read customConfigParser_init
              (fp_lines (nl ["[s]"; "!!!bad!!!"; "a=1"; "???worse???"])) in
   snd r = Returns /\
   stored (fst r) "s" "a" = Some (VStr "1") /\
   stored (fst r) "s" "!!!bad!!!" = Some VNone /\
   stored (fst r) "s" "???worse???" = Some VNone) /\
  (let r := _read customConfigParser_init
              (fp_lines (nl ["[s]"; "=bad"; "a=1"; "=worse"])) in
   snd r = Raises (ParsingError [(2, Repr ("=bad" ++ NL));
                                 (4, Repr ("=worse" ++ NL))]) /\
   stored (fst r) "s" "a" = Some (VStr "1")).
Proof. repeat split; reflexivity. Qed.

(** C2 as stated fails: on its input no error is reported at all. *)
Lemma C2_counterexample :
  ~ exists self' errors,
      _read customConfigParser_init
        (fp_lines (nl ["[s]"; "!!!bad!!!"; "a=1"; "???worse???"]))
      = (self', Raises (ParsingError errors)) /\
      List.length errors = 2%nat.
Proof.
  intros (self' & errors & H & _). vm_compute in H. discriminate.
Qed.

(** ** One inline prefix: the earliest comment start is found *)

Lemma drop_drop a : forall b s, drop a (drop b s) = drop (b + a) s.
Proof.
  intros b. induction b as [|b IH]; intros s; simpl; auto.
  destruct s as [|c s]; simpl; auto. now destruct a.
Qed.

Lemma find_at_spec sub : forall s pos,
  (find_at s sub pos = -1 /\
   forall n, (n <= String.length s)%nat -> startswith (drop n s) sub = false)
  \/
  (exists n, (n <= String.length s)%nat /\
     find_at s sub pos = pos + Z.of_nat n /\
     startswith (drop n s) sub = true /\
     forall m, (m < n)%nat -> startswith (drop m s) sub = false).
Proof.
  induction s as [|c s IH]; intros pos; cbn [find_at String.length].
  - destruct (startswith "" sub) eqn:E.
    + right. exists 0%nat. repeat split; auto; [lia|]. intros m Hm. lia.
    + left. split; auto. intros [|n] Hn; [exact E | simpl in Hn; lia].
  - destruct (startswith (String c s) sub) eqn:E.
    + right. exists 0%nat. repeat split; auto; [lia | lia |].
      intros m Hm. lia.
    + destruct (IH (pos + 1)) as [[H1 H2] | (n & Hn & H1 & H2 & H3)].
      * left. split; auto. intros [|n] Hn; [exact E|]. simpl.
        apply H2. lia.
      * right. exists (S n). repeat split; auto; [lia | lia |].
        intros [|m] Hm; [exact E|]. simpl. apply H3. lia.
Qed.

Lemma find_spec line sub start :
  0 <= start ->
  (find line sub start = -1 /\
   forall k, start <= k -> ~ occurs_at line sub k)
  \/
  (start <= find line sub start /\
   occurs_at line sub (find line sub start) /\
   forall k, start <= k < find line sub start -> ~ occurs_at line sub k).
Proof.
  intros Hs. unfold find, occurs_at.
  destruct (start <? 0) eqn:E; [apply Z.ltb_lt in E; lia|]. clear E.
  destruct (len line <? start) eqn:E.
  { apply Z.ltb_lt in E. left. split; auto. intros k Hk [Hk' _]. lia. }
  apply Z.ltb_ge in E. unfold len in *.
  destruct (find_at_spec sub (drop (Z.to_nat start) line) start)
    as [[H1 H2] | (n & Hn & H1 & H2 & H3)];
    rewrite length_drop in *.
  - left. split; auto. intros k Hk [Hk' Hocc].
    specialize (H2 (Z.to_nat k - Z.to_nat start)%nat).
    rewrite drop_drop in H2.
    replace (Z.to_nat start + (Z.to_nat k - Z.to_nat start))%nat
      with (Z.to_nat k) in H2 by lia.
    rewrite H2 in Hocc; [discriminate | lia].
  - right. rewrite H1. rewrite drop_drop in H2.
    replace (Z.to_nat (start + Z.of_nat n)) with (Z.to_nat start + n)%nat
      by lia.
    repeat split; auto; try lia.
    intros k Hk [Hk' Hocc].
    specialize (H3 (Z.to_nat k - Z.to_nat start)%nat).
    rewrite drop_drop in H3.
    replace (Z.to_nat start + (Z.to_nat k - Z.to_nat start))%nat
      with (Z.to_nat k) in H3 by lia.
    rewrite H3 in Hocc; [discriminate | lia].
Qed.

(** What the loop returns for one prefix, started after column [i] with no
    comment start up to [i]. *)
Lemma inline_loop_single fuel : forall line prefix i cs,
  len line < maxsize -> -1 <= i ->
  (forall k, k <= i -> ~ comment_at line prefix k) ->
  inline_loop fuel line [(prefix, i)] maxsize = Some cs ->
  (cs = maxsize /\ forall k, ~ comment_at line prefix k) \/
  (cs < maxsize /\ comment_at line prefix cs /\
   forall k, comment_at line prefix k -> cs <= k).
Proof.
  induction fuel as [|fuel IH]; intros line prefix i cs Hlen Hi Hnone;
    cbn [inline_loop]; rewrite Z.eqb_refl; cbn [andb]; [discriminate|].
  unfold scan_prefixes. cbn [fold_left].
  destruct (find_spec line prefix (i + 1)) as [[H1 H2] | (H1 & H2 & H3)];
    [lia | |].
  - rewrite H1. simpl. destruct fuel; simpl; intros H; injection H as <-;
      left; split; auto; intros k [Hocc Hv];
      (destruct (Z_le_gt_dec k i) as [Hk|Hk];
       [apply (Hnone k Hk); now split | apply (H2 k); [lia | exact Hocc]]).
  - set (j := find line prefix (i + 1)) in *.
    assert (Hj : j <= len line) by (destruct H2 as [[_ H] _]; exact H).
    destruct (j =? -1) eqn:E; [apply Z.eqb_eq in E; lia|]. clear E.
    cbn [PyDict.set].
    assert (Hbefore : forall k, k < j -> ~ comment_at line prefix k).
    { intros k Hk [Hocc Hv].
      destruct (Z_le_gt_dec k i) as [Hk'|Hk'];
        [apply (Hnone k Hk'); now split | apply (H3 k); [lia | exact Hocc]]. }
    destruct ((j =? 0) || (0 <? j) && isspace_at line (j - 1)) eqn:Hvalid.
    + replace (Z.min maxsize j) with j by lia.
      assert (Hcs : inline_loop fuel line [(prefix, j)] j = Some j).
      { destruct fuel; cbn [inline_loop];
          (destruct (j =? maxsize) eqn:E; [apply Z.eqb_eq in E; lia|]);
          reflexivity. }
      rewrite Hcs. intros H; injection H as <-. right.
      split; [lia|]. split.
      * split; [exact H2|].
        apply orb_true_iff in Hvalid. destruct Hvalid as [Hz|Hsp].
        -- left. now apply Z.eqb_eq.
        -- right. now apply andb_true_iff in Hsp.
      * intros k Hc. destruct (Z_le_gt_dec j k); auto.
        exfalso. apply (Hbefore k); [lia | exact Hc].
    + apply IH; auto; [lia|].
      intros k Hk. destruct (Z.eq_dec k j) as [->|Hne];
        [|apply Hbefore; lia].
      intros [_ [Hz|Hsp]].
      * subst j. rewrite Hz in Hvalid. discriminate.
      * rewrite Hsp in Hvalid.
        destruct (j =? 0) eqn:E0; [discriminate|].
        destruct (0 <? j) eqn:E; [discriminate|].
        apply Z.eqb_neq in E0. apply Z.ltb_ge in E. lia.
Qed.

(** With a single inline prefix and no comment prefix, [comment_start] is
    the earliest column at which the prefix occurs at column 0 or after
    white space, and [None] when there is no such column. *)
Lemma single_prefix_earliest self line prefix :
  _inline_comment_prefixes self = [prefix] ->
  _comment_prefixes self = [] ->
  len line < maxsize ->
  exists comment_start,
    comment_start_of self line = Some comment_start /\
    match comment_start with
    | Some k => comment_at line prefix k /\
                forall k', comment_at line prefix k' -> k <= k'
    | None => forall k, ~ comment_at line prefix k
    end.
Proof.
  intros Hi Hc Hlen.
  destruct (comment_start_of_total self line) as [cs Hcs].
  exists cs. split; [exact Hcs|].
  unfold comment_start_of in Hcs. rewrite Hi, Hc in Hcs.
  cbn [PyDict.fromkeys fold_left PyDict.set existsb] in Hcs.
  destruct (inline_loop _ line [(prefix, -1)] maxsize) as [c|] eqn:E;
    [|discriminate].
  apply inline_loop_single in E; auto; [|lia|].
  - destruct E as [[-> Hnone] | (Hlt & Hat & Hmin)].
    + rewrite Z.eqb_refl in Hcs. now injection Hcs as <-.
    + destruct (c =? maxsize) eqn:E'; [apply Z.eqb_eq in E'; lia|].
      injection Hcs as <-. now split.
  - intros k Hk [[[H0 _] _] _]. lia.
Qed.

(** ** Inline comments *)




(** ** Lines before any header *)




(** ** The set [elements_added] and the stored options *)

Lemma sectname_eqb_eq a b : sectname_eqb a b = true <-> a = b.
Proof.
  destruct a as [x|], b as [y|]; simpl; try (split; congruence).
  rewrite String.eqb_eq. split; congruence.
Qed.

Lemma element_eqb_eq a b : element_eqb a b = true <-> a = b.
Proof.
  destruct a as [x|x o], b as [y|y p]; simpl; try (split; congruence).
  - rewrite String.eqb_eq. split; congruence.
  - rewrite andb_true_iff, sectname_eqb_eq, String.eqb_eq.
    split; [intros [-> ->]; reflexivity | intros H; now inversion H].
Qed.

Lemma added_add s x y :
  added (add s x) y = element_eqb y x || added s y.
Proof.
  unfold add. destruct (added s x) eqn:Hx; [|reflexivity].
  destruct (element_eqb y x) eqn:E; [|reflexivity].
  apply element_eqb_eq in E. now subst y.
Qed.

Lemma added_add_sect s n sn o :
  added (add s (ESect n)) (EOpt sn o) = added s (EOpt sn o).
Proof. now rewrite added_add. Qed.

Lemma inv_init self : inv self locals_init.
Proof.
  split; simpl; intros; try discriminate; reflexivity.
Qed.

Lemma grows_refl self : grows self self.
Proof. repeat split; auto. Qed.

Lemma ref_of_grows self self' n :
  grows self self' -> ref_of self' n = ref_of self n.
Proof. intros (_ & _ & H & _). unfold ref_of. now rewrite H. Qed.

Lemma inv_grows self self' st :
  grows self self' -> inv self st -> inv self' st.
Proof.
  intros Hg [Hn Hc Hs]. pose proof Hg as (Hd & _ & Hm & Ho).
  split; auto.
  - intros r Hr. destruct (Hc r Hr) as (n & H1 & H2 & H3).
    exists n. rewrite (ref_of_grows _ _ _ Hg), Hd, Hm. auto.
  - intros sn o Ha. destruct (Hs sn o Ha) as (n & H1 & H2 & H3).
    exists n. rewrite (ref_of_grows _ _ _ Hg), Hd, Hm. auto.
Qed.

(** Writing one option of the section [ref_of self n] adds no section and
    removes no option. *)
Lemma grows_store self n o v :
  grows self
    (store self (ref_of self n)
       (PyDict.set (deref self (ref_of self n)) o v)).
Proof.
  unfold ref_of. destruct (PyDict.mem (_sections self) n) eqn:Hn.
  - repeat split; simpl; auto.
    + intros m. rewrite mem_set.
      destruct (String.eqb n m) eqn:E; [|reflexivity].
      apply String.eqb_eq in E. now subst m.
    + intros [|m] o'; simpl; auto. rewrite get_set.
      destruct (String.eqb n m) eqn:E; [|auto].
      apply String.eqb_eq in E. subst m. intros H.
      rewrite mem_set, H. apply orb_true_r.
  - repeat split; simpl; auto.
    intros [|m] o'; simpl; auto. intros H.
    rewrite mem_set, H. apply orb_true_r.
Qed.

Lemma store_strict self r d : _strict (store self r d) = _strict self.
Proof. now destruct r. Qed.

Lemma inv_locals self st st' :
  elements_added st' = elements_added st -> cursect st' = cursect st ->
  sectname st' = sectname st ->
  inv self st -> inv self st'.
Proof.
  intros He Hc Hn [H1 H2 H3]. split; rewrite ?He, ?Hc, ?Hn; auto.
Qed.

Lemma append_to_grows self st r o x self' st' n :
  r = ref_of self n ->
  append_to self st r o x = Next self' st' ->
  st' = st /\ grows self self'.
Proof.
  intros -> H. unfold append_to in H.
  destruct (PyDict.get _ o) as [[|l|s]|]; try discriminate.
  injection H as <- <-.
  split; [reflexivity | apply grows_store].
Qed.

Lemma inv_append_to self st r o x self' st' :
  inv self st -> cursect st = Some r ->
  append_to self st r o x = Next self' st' ->
  inv self' st' /\ _strict self' = _strict self.
Proof.
  intros Hinv Hr H.
  destruct (inv_cur _ _ Hinv r Hr) as (n & _ & Hn & _).
  destruct (append_to_grows _ _ _ _ _ _ _ _ Hn H) as [-> Hg].
  split; [now apply (inv_grows self) | apply Hg].
Qed.

Lemma inv_read_blank self st cs self' st' :
  inv self st -> read_blank self st cs = Next self' st' ->
  inv self' st' /\ _strict self' = _strict self.
Proof.
  intros Hinv. unfold read_blank.
  destruct (_empty_lines_in_values self).
  - destruct cs; [intros H; injection H as <- <-; auto|].
    destruct (cursect st) as [r|] eqn:Hr;
      [|intros H; injection H as <- <-; auto].
    destruct (truthy (optname st)) as [o|];
      [|intros H; injection H as <- <-; auto].
    destruct (PyDict.get (deref self r) o) as [[|l|s]|] eqn:Hget;
      try (intros H; injection H as <- <-; now auto);
      intros H; now apply (inv_append_to self st r o EmptyString).
  - intros H; injection H as <- <-. split; [|reflexivity].
    now apply (inv_locals self st).
Qed.

Lemma inv_read_header self st lineno ind name self' st' :
  inv self st -> read_header self st lineno ind name = Next self' st' ->
  inv self' st' /\ _strict self' = _strict self.
Proof.
  intros [H1 H2 H3]. unfold read_header.
  destruct (PyDict.mem (_sections self) name) eqn:Hm.
  - destruct (_strict self && _); [discriminate|].
    intros H; injection H as <- <-.
    split; [|reflexivity]. split; simpl.
    + discriminate.
    + intros r Hr. inversion Hr. exists name. unfold ref_of.
      rewrite Hm. repeat split. discriminate.
    + intros sn o. rewrite added_add_sect. apply H3.
  - destruct (String.eqb name (default_section self)) eqn:Hd;
      intros H; injection H as <- <-; (split; [|reflexivity]).
    + apply String.eqb_eq in Hd. split; simpl; auto.
      * discriminate.
      * intros r Hr. inversion Hr. exists name. unfold ref_of.
        rewrite Hm. auto.
    + apply String.eqb_neq in Hd. split; simpl.
      * discriminate.
      * intros r Hr. inversion Hr. exists name. unfold ref_of. simpl.
        rewrite mem_set, String.eqb_refl. repeat split. discriminate.
      * intros sn o. rewrite added_add_sect. intros Ha.
        destruct (H3 sn o Ha) as (n & Hsn & Ho & Hdef). exists n.
        assert (Hne : name <> n).
        { intros ->. apply Hd. auto. }
        assert (Hmem : PyDict.mem (PyDict.set (_sections self) name []) n
                       = PyDict.mem (_sections self) n).
        { rewrite mem_set. apply String.eqb_neq in Hne. now rewrite Hne. }
        unfold ref_of in *. simpl. rewrite Hmem.
        repeat split; auto.
        destruct (PyDict.mem (_sections self) n); simpl in *; auto.
        now rewrite get_set_other.
Qed.

Lemma inv_read_headerless self st ind self' st' :
  inv self st -> cursect st = None ->
  read_headerless self st ind = Next self' st' ->
  inv self' st' /\ _strict self' = _strict self.
Proof.
  intros [H1 H2 H3] Hr H. injection H as <- <-.
  split; [|reflexivity]. split; simpl.
  - discriminate.
  - intros r Hr'. inversion Hr'. exists fake_header. unfold ref_of. simpl.
    rewrite mem_set, String.eqb_refl. repeat split. discriminate.
  - intros sn o. rewrite added_add_sect, (H1 Hr). discriminate.
Qed.

Lemma inv_read_option self st r lineno ind line value self' st' :
  inv self st -> cursect st = Some r ->
  read_option self st r lineno ind line value = Next self' st' ->
  inv self' st' /\ _strict self' = _strict self.
Proof.
  intros Hinv Hr. unfold read_option.
  destruct (Re.optcre_match value) as [[[o vi] v]|].
  2:{ intros H; injection H as <- <-. split; [|reflexivity].
      now apply (inv_locals self st). }
  destruct (_strict self && _); [discriminate|].
  destruct (inv_cur _ _ Hinv r Hr) as (n & Hn & Href & Hdef).
  set (o1 := optionxform (rstrip o)).
  intros H.
  assert (Hg : grows self self' /\
               PyDict.mem (deref self' r) o1 = true /\
               elements_added st'
                 = add (elements_added st) (EOpt (sectname st) o1) /\
               cursect st' = Some r /\ sectname st' = sectname st).
  { revert H. rewrite Href in *. cbv zeta. fold o1.
    destruct v as [v|];
      destruct (PyDict.mem (deref self (ref_of self n)) o1) eqn:Hmem;
      intros H; injection H as <- <-; simpl;
        (split; [first [apply grows_refl | apply grows_store]|]);
        repeat split; auto;
        rewrite deref_store_same, mem_set, String.eqb_refl; reflexivity. }
  clear H. destruct Hg as (Hg & Hmem & He & Hc & Hs).
  split; [|apply Hg].
  pose proof (inv_grows _ _ _ Hg Hinv) as [H1 H2 H3].
  split; rewrite ?He, ?Hc, ?Hs.
  - discriminate.
  - intros r0 Hr0. injection Hr0 as <-. now apply H2.
  - intros sn o'. rewrite added_add. intros Ha.
    apply orb_true_iff in Ha. destruct Ha as [Ha|Ha]; [|now apply H3].
    apply element_eqb_eq in Ha. inversion Ha; subst sn o'.
    exists n. rewrite (ref_of_grows _ _ _ Hg), <- Href.
    destruct Hg as (Hd & _ & Hm & _). rewrite Hd, Hm. auto.
Qed.

Lemma inv_read_line self st lineno line self' st' :
  inv self st -> read_line self st lineno line = Next self' st' ->
  inv self' st' /\ _strict self' = _strict self.
Proof.
  intros Hinv. unfold read_line.
  destruct (comment_start_of self line) as [cs|]; [|discriminate].
  destruct (strip (slice_to line cs)) as [|c value];
    [apply inv_read_blank; auto|].
  unfold read_content.
  assert (Hrest :
    match Re.SECTCRE_match (String c value) with
    | Some name => read_header self st lineno (indent_of line) name
    | None =>
        match cursect st with
        | Some r => read_option self st r lineno (indent_of line) line
                      (String c value)
        | None => read_headerless self st (indent_of line)
        end
    end = Next self' st' -> inv self' st' /\ _strict self' = _strict self).
  { destruct (Re.SECTCRE_match _) as [name|];
      [now apply inv_read_header|].
    destruct (cursect st) as [r|] eqn:Hr;
      [now apply inv_read_option | now apply inv_read_headerless]. }
  destruct (cursect st) as [r|] eqn:Hr; [|exact Hrest].
  destruct (truthy (optname st)) as [o|]; [|exact Hrest].
  destruct (indent_level st <? indent_of line); [|exact Hrest].
  now apply inv_append_to.
Qed.

Lemma inv_read_lines fp : forall self st lineno self' st',
  inv self st -> read_lines self st lineno fp = Next self' st' ->
  inv self' st' /\ _strict self' = _strict self.
Proof.
  induction fp as [|line fp IH]; intros self st lineno self' st' Hinv; simpl.
  - intros H; injection H as <- <-; auto.
  - destruct (read_line self st lineno line) as [self1 st1| |] eqn:E;
      try discriminate.
    destruct (inv_read_line _ _ _ _ _ _ Hinv E) as [Hinv1 Hs1].
    intros H. destruct (IH _ _ _ _ _ Hinv1 H) as [Hinv2 Hs2].
    split; [exact Hinv2 | congruence].
Qed.

(** The section that [cursect] refers to exists: [deref] never falls back on
    its empty dictionary for the open section. *)
Lemma cursect_bound self0 fp self st name :
  read_lines self0 locals_init 1 fp = Next self st ->
  cursect st = Some (RSection name) ->
  PyDict.mem (_sections self) name = true.
Proof.
  intros Hreach Hr.
  destruct (inv_read_lines fp _ _ _ _ _ (inv_init self0) Hreach) as [Hinv _].
  destruct (inv_cur _ _ Hinv _ Hr) as (n & _ & Href & _).
  unfold ref_of in Href.
  destruct (PyDict.mem (_sections self) n) eqn:E; [|discriminate].
  now injection Href as ->.
Qed.

(** C1 (the first of two equal options wins).  A new parser reads the three
    lines [[s]], [a=1], [a=2] into the value 1 for option [a] of section [s]
    and returns without error.  For every parser that is not strict, after
    any lines read by [_read], an option line whose pair of section name and
    normalized option name is already in [elements_added] leaves every
    stored value as it is: the parser after the line is the parser before
    it. *)
Theorem C1_duplicate_option_first_wins :
  (_strict customConfigParser_init = false /\
   let r := _read customConfigParser_init
              (fp_lines (nl ["[s]"; "a=1"; "a=2"])) in
   snd r = Returns /\ stored (fst r) "s" "a" = Some (VStr "1")) /\
  (forall self0 fp self st lineno line r o v,
     _strict self0 = false ->
     read_lines self0 locals_init 1 fp = Next self st ->
     option_line self st line r o v ->
     added (elements_added st)
       (EOpt (sectname st) (optionxform (rstrip o))) = true ->
     exists st', read_line self st lineno line = Next self st').
Proof.
  split; [repeat split; reflexivity|].
  intros self0 fp self st lineno line r o v Hstrict Hreach Hline Hseen.
  destruct (inv_read_lines fp _ _ _ _ _ (inv_init self0) Hreach)
    as [Hinv Hs].
  assert (Hr : cursect st = Some r).
  { destruct Hline as (cs & value & vi & _ & _ & Hr & _). exact Hr. }
  destruct (inv_cur _ _ Hinv r Hr) as (n & Hn & Href & _).
  destruct (inv_seen _ _ Hinv _ _ Hseen) as (n' & Hn' & Hmem & _).
  assert (n' = n) by congruence. subst n'. rewrite <- Href in Hmem.
  destruct (read_option_present self st lineno line r o v Hline)
    as (st' & H & _); [congruence | exact Hmem |].
  now exists st'.
Qed.

Lemma C1_duplicate_option_first_wins_witness :
  exists st', read_line self_s_a st_s_a 3 ("a=2" ++ NL) = Next self_s_a st'.
Proof.
  apply (proj2 C1_duplicate_option_first_wins customConfigParser_init
           (fp_lines (nl ["[s]"; "a=1"])) self_s_a st_s_a 3 ("a=2" ++ NL)
           (RSection "s") "a" (Some "2")).
  - reflexivity.
  - reflexivity.
  - exact option_line_a_2.
  - reflexivity.
Defined.

(** ** Every call of [_read] ends *)

Lemma read_line_ends self st lineno line :
  read_line self st lineno line <> Diverge.
Proof.
  unfold read_line.
  destruct (comment_start_of_total self line) as [cs ->].
  destruct (strip (slice_to line cs)) as [|c value].
  - unfold read_blank, append_to.
    repeat match goal with
           | |- context [match ?x with _ => _ end] => destruct x
           end; discriminate.
  - unfold read_content, append_to, read_header, read_headerless,
      read_option.
    repeat match goal with
           | |- context [match ?x with _ => _ end] => destruct x
           end; discriminate.
Qed.

Lemma read_lines_ends fp : forall self st lineno,
  read_lines self st lineno fp <> Diverge.
Proof.
  induction fp as [|line fp IH]; intros self st lineno; simpl;
    [discriminate|].
  destruct (read_line self st lineno line) eqn:E; auto; [discriminate|].
  now apply read_line_ends in E.
Qed.

(** Every call of [_read] ends, by returning or by raising: the loop over
    the inline comment prefixes stops on every line, for every set of
    prefixes, and nothing else in the scan can loop. *)
Lemma _read_ends self fp : snd (_read self fp) <> Hangs.
Proof.
  unfold _read. pose proof (read_lines_ends fp self locals_init 1) as H.
  destruct (read_lines self locals_init 1 fp) as [self' st|self' x|];
    [destruct (e st) | |]; simpl; congruence.
Qed.

(** ** The aggregate error *)

Lemma errors_of_handle_error exc lineno line :
  errors_of (_handle_error exc lineno line)
  = (errors_of exc ++ [(lineno, Repr line)])%list.
Proof. now destruct exc. Qed.

(** A line adds at most one entry to the error, its own. *)
Lemma read_line_errors self st lineno line self' st' :
  read_line self st lineno line = Next self' st' ->
  errors_of (e st') = errors_of (e st) \/
  errors_of (e st') = (errors_of (e st) ++ [(lineno, Repr line)])%list.
Proof.
  unfold read_line.
  destruct (comment_start_of self line) as [cs|]; [|discriminate].
  destruct (strip (slice_to line cs)) as [|c value].
  - unfold read_blank, append_to.
    repeat match goal with
           | |- context [match ?x with _ => _ end] => destruct x
           end; intros H; try discriminate; injection H as <- <-; now left.
  - unfold read_content, append_to, read_header, read_headerless,
      read_option.
    repeat match goal with
           | |- context [match ?x with _ => _ end] => destruct x
           end; intros H; try discriminate; injection H as <- <-; simpl;
      rewrite ?errors_of_handle_error; auto.
Qed.

(** The entries that the lines [fp], numbered from [lineno], add to the
    error: each is the pair of a line number and the line at that number,
    and the numbers increase. *)
Lemma read_lines_errors fp : forall self st lineno self' st',
  read_lines self st lineno fp = Next self' st' ->
  exists new,
    errors_of (e st') = (errors_of (e st) ++ new)%list /\
    Forall (fun entry : Z * pyrepr =>
              lineno <= fst entry /\
              exists line,
                snd entry = Repr line /\
                nth_error fp (Z.to_nat (fst entry - lineno)) = Some line)
           new /\
    StronglySorted (fun a b : Z * pyrepr => fst a < fst b) new.
Proof.
  induction fp as [|line fp IH]; intros self st lineno self' st'; simpl.
  - intros H; injection H as <- <-. exists []. rewrite app_nil_r.
    repeat split; constructor.
  - destruct (read_line self st lineno line) as [self1 st1| |] eqn:E;
      try discriminate.
    intros H. destruct (IH _ _ _ _ _ H) as (new & Hnew & Hall & Hsort).
    assert (Hshift :
      Forall (fun entry : Z * pyrepr =>
                lineno < fst entry /\
                exists l,
                  snd entry = Repr l /\
                  nth_error (line :: fp) (Z.to_nat (fst entry - lineno))
                  = Some l) new).
    { eapply Forall_impl; [|exact Hall]. intros [k x] [Hk (l & Hx & Hn)].
      simpl in *. split; [lia|]. exists l. split; [exact Hx|].
      replace (Z.to_nat (k - lineno)) with (S (Z.to_nat (k - (lineno + 1))))
        by lia. exact Hn. }
    destruct (read_line_errors _ _ _ _ _ _ E) as [H1|H1].
    + exists new. rewrite Hnew, H1. repeat split; auto.
      eapply Forall_impl; [|exact Hshift]. simpl. intros a [Ha Hl].
      split; [lia | exact Hl].
    + exists ((lineno, Repr line) :: new). rewrite Hnew, H1, <- app_assoc.
      repeat split; auto.
      * constructor.
        -- simpl. split; [lia|]. exists line. rewrite Z.sub_diag. auto.
        -- eapply Forall_impl; [|exact Hshift]. simpl. intros a [Ha Hl].
           split; [lia | exact Hl].
      * constructor; auto.
        eapply Forall_impl; [|exact Hshift]. simpl. intros a [Ha _]. exact Ha.
Qed.

(** When the scan reaches the end of the input with errors recorded,
    [_read] joins the values and raises the one ParsingError, whose entries
    are lines of the input with their numbers, in file order. *)
Lemma errors_in_file_order self fp self' st errors :
  read_lines self locals_init 1 fp = Next self' st ->
  e st = Some errors ->
  _read self fp = (_join_multiline_values self', Raises (ParsingError errors))
  /\
  Forall (fun entry : Z * pyrepr =>
            exists line,
              snd entry = Repr line /\
              nth_error fp (Z.to_nat (fst entry - 1)) = Some line) errors /\
  StronglySorted (fun a b : Z * pyrepr => fst a < fst b) errors.
Proof.
  intros Hreach He. unfold _read. rewrite Hreach, He.
  destruct (read_lines_errors fp _ _ _ _ _ Hreach)
    as (new & Hnew & Hall & Hsort).
  rewrite He in Hnew. simpl in Hnew. subst new.
  repeat split; auto.
  eapply Forall_impl; [|exact Hall]. simpl. intros a [_ H]. exact H.
Qed.

(** ** How one line changes the parser *)

Lemma deref_store_other self r0 r d :
  r <> r0 -> deref (store self r0 d) r = deref self r.
Proof.
  intros Hne. destruct r0 as [|n0], r as [|n]; simpl; auto; try congruence.
  rewrite get_set_other; auto. congruence.
Qed.

Lemma deref_new_section self name r :
  deref (with_sections self (PyDict.set (_sections self) name [])) r
  = match r with
    | RSection n => if String.eqb name n then [] else deref self r
    | RDefaults => deref self r
    end.
Proof.
  destruct r as [|n]; simpl; auto. rewrite get_set.
  now destruct (String.eqb name n).
Qed.

(** A line that is read without exception leaves the parser as it is,
    appends one line to a list of lines of the open section, stores an
    option that the open section has not, or creates an empty section. *)
Lemma read_line_shape self st lineno line self' st' :
  read_line self st lineno line = Next self' st' ->
  self' = self \/
  (exists r o l x,
     cursect st = Some r /\ PyDict.get (deref self r) o = Some (VList l) /\
     self' = store self r
               (PyDict.set (deref self r) o (VList (l ++ [x])%list))) \/
  (exists r x v,
     cursect st = Some r /\
     PyDict.mem (deref self r) (optionxform (rstrip x)) = false /\
     (v = VNone \/ exists s, v = VList [s]) /\
     self' = store self r
               (PyDict.set (deref self r) (optionxform (rstrip x)) v)) \/
  (exists name,
     PyDict.mem (_sections self) name = false /\
     name <> default_section self /\
     self' = with_sections self (PyDict.set (_sections self) name [])) \/
  (cursect st = None /\
   self' = with_sections self (PyDict.set (_sections self) fake_header [])).
Proof.
  assert (Happ : forall r o x,
            cursect st = Some r ->
            append_to self st r o x = Next self' st' ->
            exists r o l x,
              cursect st = Some r /\
              PyDict.get (deref self r) o = Some (VList l) /\
              self' = store self r
                        (PyDict.set (deref self r) o (VList (l ++ [x])%list))).
  { intros r o x Hr. unfold append_to.
    destruct (PyDict.get (deref self r) o) as [[|l|s]|] eqn:Hget;
      try discriminate.
    intros H; injection H as <- <-. now exists r, o, l, x. }
  unfold read_line.
  destruct (comment_start_of self line) as [cs|]; [|discriminate].
  destruct (strip (slice_to line cs)) as [|c value].
  - unfold read_blank.
    destruct (_empty_lines_in_values self);
      [|intros H; injection H as <- <-; now left].
    destruct cs; [intros H; injection H as <- <-; now left|].
    destruct (cursect st) as [r|] eqn:Hr;
      [|intros H; injection H as <- <-; now left].
    destruct (truthy (optname st)) as [o|];
      [|intros H; injection H as <- <-; now left].
    destruct (PyDict.get (deref self r) o) as [[|l|s]|] eqn:Hget;
      try discriminate;
      try (intros H; injection H as <- <-; now left);
      intros H; right; left; now apply (Happ r o EmptyString).
  - unfold read_content.
    assert (Hrest :
      match Re.SECTCRE_match (String c value) with
      | Some name => read_header self st lineno (indent_of line) name
      | None =>
          match cursect st with
          | Some r => read_option self st r lineno (indent_of line) line
                        (String c value)
          | None => read_headerless self st (indent_of line)
          end
      end = Next self' st' ->
      self' = self \/
      (exists r o l x,
         cursect st = Some r /\
         PyDict.get (deref self r) o = Some (VList l) /\
         self' = store self r
                   (PyDict.set (deref self r) o (VList (l ++ [x])%list))) \/
      (exists r x v,
         cursect st = Some r /\
         PyDict.mem (deref self r) (optionxform (rstrip x)) = false /\
         (v = VNone \/ exists s, v = VList [s]) /\
         self' = store self r
                   (PyDict.set (deref self r) (optionxform (rstrip x)) v)) \/
      (exists name,
         PyDict.mem (_sections self) name = false /\
         name <> default_section self /\
         self' = with_sections self (PyDict.set (_sections self) name [])) \/
      (cursect st = None /\
       self' = with_sections self
                 (PyDict.set (_sections self) fake_header []))).
    { destruct (Re.SECTCRE_match _) as [name|].
      - unfold read_header.
        destruct (PyDict.mem (_sections self) name) eqn:Hm.
        + destruct (_strict self && _); [discriminate|].
          intros H; injection H as <- <-; now left.
        + destruct (String.eqb name (default_section self)) eqn:Hd;
            intros H; injection H as <- <-; [now left|].
          apply String.eqb_neq in Hd. right; right; right; left.
          now exists name.
      - destruct (cursect st) as [r|] eqn:Hr.
        + unfold read_option.
          destruct (Re.optcre_match _) as [[[o vi] v]|];
            [|intros H; injection H as <- <-; now left].
          destruct (_strict self && _); [discriminate|]. cbv zeta.
          destruct v as [v|];
            destruct (PyDict.mem (deref self r) (optionxform (rstrip o)))
              eqn:Hmem;
            intros H; injection H as <- <-; try (now left);
            right; right; left; eexists r, o, _; repeat split; eauto.
        + intros H; injection H as <- <-.
          right; right; right; right. now split. }
    destruct (cursect st) as [r|] eqn:Hr; [|exact Hrest].
    destruct (truthy (optname st)) as [o|]; [|exact Hrest].
    destruct (indent_level st <? indent_of line); [|exact Hrest].
    intros H. right; left. now apply (Happ r o (String c value)).
Qed.

(** An exception leaves the parser as the line found it, and is not the
    aggregate error. *)
Lemma read_line_raise self st lineno line self' x :
  read_line self st lineno line = Raise self' x ->
  self' = self /\
  (x = AttributeError \/ (exists k, x = KeyError k) \/
   (_strict self = true /\
    ((exists name, x = DuplicateSectionError name lineno) \/
     (exists o, x = DuplicateOptionError (sectname st) o lineno)))).
Proof.
  assert (Happ : forall r o v,
            append_to self st r o v = Raise self' x ->
            self' = self /\ (x = AttributeError \/ (exists k, x = KeyError k) \/
              (_strict self = true /\
               ((exists name, x = DuplicateSectionError name lineno) \/
                (exists o, x = DuplicateOptionError (sectname st) o lineno))))).
  { intros r o v. unfold append_to.
    destruct (PyDict.get (deref self r) o) as [[|l|s]|];
      intros H; try discriminate; injection H as <- <-; eauto. }
  unfold read_line.
  destruct (comment_start_of self line) as [cs|]; [|discriminate].
  destruct (strip (slice_to line cs)) as [|c value].
  - unfold read_blank.
    destruct (_empty_lines_in_values self); [|discriminate].
    destruct cs; [discriminate|].
    destruct (cursect st) as [r|]; [|discriminate].
    destruct (truthy (optname st)) as [o|]; [|discriminate].
    destruct (PyDict.get (deref self r) o) as [[|l|s]|] eqn:Hget;
      try discriminate; try apply Happ.
    intros H; injection H as <- <-; eauto.
  - unfold read_content, read_header, read_headerless, read_option.
    destruct (_strict self) eqn:Hstrict; cbn [andb];
    repeat match goal with
           | |- context [append_to ?a ?b ?c ?d ?f] =>
               generalize (Happ c d f); destruct (append_to a b c d f)
           | |- context [match ?y with _ => _ end] => destruct y
           end; intros; try discriminate; auto;
      match goal with
      | H : Raise _ _ = Raise _ _ |- _ => injection H as <- <-
      end; split; auto; right; right; split; eauto.
Qed.

(** ** Reasoning on all the lines *)

Section Reach.
Variable P : parser -> locals -> Prop.
Hypothesis P_step : forall self st lineno line self' st',
  P self st -> read_line self st lineno line = Next self' st' -> P self' st'.

Lemma read_lines_next fp : forall self st lineno self' st',
  P self st -> read_lines self st lineno fp = Next self' st' -> P self' st'.
Proof.
  induction fp as [|line fp IH]; intros self st lineno self' st' HP; simpl.
  - intros H; injection H as <- <-. exact HP.
  - destruct (read_line self st lineno line) as [self1 st1| |] eqn:E;
      try discriminate.
    apply IH. now apply (P_step self st lineno line).
Qed.

(** An exception comes from one line, read in a state that the lines before
    it lead to. *)
Lemma read_lines_raise fp : forall self st lineno self' x,
  P self st -> read_lines self st lineno fp = Raise self' x ->
  exists self1 st1 lineno1 line1,
    P self1 st1 /\ read_line self1 st1 lineno1 line1 = Raise self' x.
Proof.
  induction fp as [|line fp IH]; intros self st lineno self' x HP; simpl.
  - discriminate.
  - destruct (read_line self st lineno line) as [self1 st1|self1 y|] eqn:E;
      try discriminate.
    + apply IH. now apply (P_step self st lineno line).
    + intros H; injection H as <- <-. now exists self, st, lineno, line.
Qed.

End Reach.

(** ** No KeyError *)

Lemma truthy_some o x : truthy o = Some x -> o = Some x.
Proof. destruct o as [[|c s]|]; simpl; congruence. Qed.

Lemma open_present_append self st r o v self' st' :
  open_present self st -> cursect st = Some r ->
  append_to self st r o v = Next self' st' -> open_present self' st'.
Proof.
  intros Hop Hr. unfold append_to.
  destruct (PyDict.get (deref self r) o) as [[|l|s]|] eqn:Hget;
    try discriminate.
  intros H; injection H as <- <-. intros r' o' Hr' Ho'.
  rewrite Hr in Hr'. injection Hr' as <-.
  rewrite deref_store_same, mem_set, (Hop r o' Hr Ho'). apply orb_true_r.
Qed.

Lemma open_present_step self st lineno line self' st' :
  open_present self st ->
  read_line self st lineno line = Next self' st' -> open_present self' st'.
Proof.
  intros Hop. unfold read_line.
  destruct (comment_start_of self line) as [cs|]; [|discriminate].
  destruct (strip (slice_to line cs)) as [|c value].
  - unfold read_blank.
    destruct (_empty_lines_in_values self);
      [|intros H; injection H as <- <-; exact Hop].
    destruct cs; [intros H; injection H as <- <-; exact Hop|].
    destruct (cursect st) as [r|] eqn:Hr;
      [|intros H; injection H as <- <-; exact Hop].
    destruct (truthy (optname st)) as [o|];
      [|intros H; injection H as <- <-; exact Hop].
    destruct (PyDict.get (deref self r) o) as [[|l|s]|] eqn:Hget;
      try discriminate;
      try (intros H; injection H as <- <-; exact Hop);
      now apply open_present_append.
  - unfold read_content.
    assert (Hrest :
      match Re.SECTCRE_match (String c value) with
      | Some name => read_header self st lineno (indent_of line) name
      | None =>
          match cursect st with
          | Some r => read_option self st r lineno (indent_of line) line
                        (String c value)
          | None => read_headerless self st (indent_of line)
          end
      end = Next self' st' -> open_present self' st').
    { destruct (Re.SECTCRE_match _) as [name|].
      - unfold read_header.
        repeat match goal with
               | |- context [if ?y then _ else _] => destruct y
               end; try discriminate;
          intros H; injection H as <- <-; intros r o _ Ho; discriminate.
      - destruct (cursect st) as [r|] eqn:Hr.
        + unfold read_option.
          destruct (Re.optcre_match _) as [[[o vi] v]|].
          2:{ intros H; injection H as <- <-. intros r' o' Hr' Ho'.
              simpl in *. injection Hr' as <-. now apply Hop. }
          destruct (_strict self && _); [discriminate|]. cbv zeta.
          destruct v as [v|];
            destruct (PyDict.mem (deref self r) (optionxform (rstrip o)))
              eqn:Hmem;
            intros H; injection H as <- <-; intros r' o' Hr' Ho';
            simpl in *; injection Hr' as <-; injection Ho' as <-; auto;
            rewrite deref_store_same, mem_set, String.eqb_refl; reflexivity.
        + intros H; injection H as <- <-. intros r o _ Ho; discriminate. }
    destruct (cursect st) as [r|] eqn:Hr; [|exact Hrest].
    destruct (truthy (optname st)) as [o|]; [|exact Hrest].
    destruct (indent_level st <? indent_of line); [|exact Hrest].
    now apply open_present_append.
Qed.

Lemma open_present_no_KeyError self st lineno line self' k :
  open_present self st ->
  read_line self st lineno line <> Raise self' (KeyError k).
Proof.
  intros Hop.
  assert (Happ : forall r o v,
            PyDict.mem (deref self r) o = true ->
            append_to self st r o v <> Raise self' (KeyError k)).
  { intros r o v Hm. unfold PyDict.mem in Hm. unfold append_to.
    destruct (PyDict.get (deref self r) o) as [[|l|s]|]; discriminate. }
  unfold read_line.
  destruct (comment_start_of self line) as [cs|]; [|discriminate].
  destruct (strip (slice_to line cs)) as [|c value].
  - unfold read_blank.
    destruct (_empty_lines_in_values self); [|discriminate].
    destruct cs; [discriminate|].
    destruct (cursect st) as [r|] eqn:Hr; [|discriminate].
    destruct (truthy (optname st)) as [o|] eqn:Ho; [|discriminate].
    pose proof (Hop r o Hr (truthy_some _ _ Ho)) as Hm.
    pose proof (Happ r o EmptyString Hm) as Ha.
    unfold PyDict.mem in Hm.
    destruct (PyDict.get (deref self r) o) as [[|l|s]|];
      try discriminate; exact Ha.
  - unfold read_content.
    assert (Hrest :
      match Re.SECTCRE_match (String c value) with
      | Some name => read_header self st lineno (indent_of line) name
      | None =>
          match cursect st with
          | Some r => read_option self st r lineno (indent_of line) line
                        (String c value)
          | None => read_headerless self st (indent_of line)
          end
      end <> Raise self' (KeyError k)).
    { unfold read_header, read_headerless, read_option.
      repeat match goal with
             | |- context [match ?y with _ => _ end] => destruct y
             end; discriminate. }
    destruct (cursect st) as [r|] eqn:Hr; [|exact Hrest].
    destruct (truthy (optname st)) as [o|] eqn:Ho; [|exact Hrest].
    destruct (indent_level st <? indent_of line); [|exact Hrest].
    apply Happ. apply (Hop r o Hr). now apply truthy_some.
Qed.

(** No call of [_read] ends with KeyError. *)
Lemma read_no_KeyError self fp k :
  snd (_read self fp) <> Raises (KeyError k).
Proof.
  unfold _read.
  destruct (read_lines self locals_init 1 fp) as [self' st|self' x|] eqn:E.
  - destruct (e st); discriminate.
  - simpl. intros H; injection H as ->.
    destruct (read_lines_raise open_present open_present_step
                fp self locals_init 1 self' (KeyError k))
      as (self1 & st1 & n1 & line1 & Hop & Hraise); auto.
    + intros r o Hr; discriminate.
    + now apply open_present_no_KeyError in Hraise.
  - discriminate.
Qed.

(** [_read] never raises KeyError: whenever it evaluates
    [cursect[optname]] (lines 72 and 82), the open section holds the
    option, whatever the parser held before the call and whatever the
    lines are. *)
Theorem read_never_KeyError self fp k :
  snd (_read self fp) <> Raises (KeyError k).
Proof.
  exact (read_no_KeyError self fp k).
Qed.

(** ** The exceptions of a parser that is not strict *)

Lemma read_line_strict self st lineno line self' st' :
  read_line self st lineno line = Next self' st' ->
  _strict self' = _strict self /\ default_section self' = default_section self.
Proof.
  intros H. apply read_line_shape in H.
  destruct H as [-> | [(r & o & l & x & _ & _ & ->) |
                [(r & x & v & _ & _ & _ & ->) |
                [(name & _ & _ & ->) | [_ ->]]]]];
    try (destruct r); auto.
Qed.

(** A parser that is not strict, as the constructor makes it, never ends
    [_read] with DuplicateSectionError or DuplicateOptionError, whatever
    it held before the call and whatever the lines are: repeated headers
    and repeated options are accepted. *)
Theorem read_nonstrict_no_duplicate_error self fp :
  _strict self = false ->
  (forall name lineno,
     snd (_read self fp) <> Raises (DuplicateSectionError name lineno)) /\
  (forall sect opt lineno,
     snd (_read self fp) <> Raises (DuplicateOptionError sect opt lineno)).
Proof.
  intros Hstrict.
  pose (P := fun (self1 : parser) (st1 : locals) => _strict self1 = false).
  assert (Hstep : forall self1 st1 lineno line self' st',
            P self1 st1 -> read_line self1 st1 lineno line = Next self' st' ->
            P self' st').
  { intros self1 st1 lineno line self' st' Hs H. unfold P in *.
    destruct (read_line_strict _ _ _ _ _ _ H) as [-> _]. exact Hs. }
  assert (Hno : forall x,
            snd (_read self fp) = Raises x ->
            x = AttributeError \/ (exists k, x = KeyError k) \/
            (exists errors, x = ParsingError errors)).
  { intros x. unfold _read.
    destruct (read_lines self locals_init 1 fp) as [self' st|self' y|] eqn:E.
    - destruct (e st) as [errors|]; simpl; intros H; [|discriminate].
      injection H as <-. right; right. now exists errors.
    - simpl. intros H; injection H as ->.
      destruct (read_lines_raise P Hstep fp _ _ _ _ _ Hstrict E)
        as (self1 & st1 & n1 & line1 & Hs & Hraise).
      apply read_line_raise in Hraise. unfold P in Hs.
      destruct Hraise as (_ & [-> | [(k & ->) | (Hs' & _)]]);
        [now left | right; left; now exists k | congruence].
    - discriminate. }
  split.
  - intros name lineno H. apply Hno in H.
    destruct H as [H | [(k & H) | (errors & H)]]; discriminate.
  - intros sect opt lineno H. apply Hno in H.
    destruct H as [H | [(k & H) | (errors & H)]]; discriminate.
Qed.

Lemma read_nonstrict_no_duplicate_error_witness :
  snd (_read customConfigParser_init
         (fp_lines (nl ["[s]"; "a=1"; "[s]"; "a=2"])))
  <> Raises (DuplicateOptionError (Some "s") "a" 4).
Proof.
  apply (proj2 (read_nonstrict_no_duplicate_error customConfigParser_init
                  (fp_lines (nl ["[s]"; "a=1"; "[s]"; "a=2"])) eq_refl)).
Defined.

(** ** Values are never overwritten *)

Lemma sectref_eq_dec (a b : sectref) : {a = b} + {a <> b}.
Proof.
  destruct a as [|x], b as [|y]; try (right; discriminate);
    [now left|].
  destruct (string_dec x y) as [->|Hne]; [now left|].
  right. congruence.
Qed.

Lemma extends_refl v : extends v v.
Proof. now left. Qed.

(** One line removes no option and changes no value but by appending a
    line to a list of lines; the one exception is the section named as the
    placeholder, which the first line without header replaces. *)
Lemma read_line_keeps self st lineno line self' st' r o v :
  read_line self st lineno line = Next self' st' ->
  r <> RSection fake_header \/ cursect st <> None ->
  PyDict.get (deref self r) o = Some v ->
  exists v', PyDict.get (deref self' r) o = Some v' /\ extends v v'.
Proof.
  intros H Hguard Hget. apply read_line_shape in H.
  destruct H as [-> | [(r0 & o0 & l & x & _ & Hl & ->) |
                [(r0 & x & v0 & _ & Hm & _ & ->) |
                [(name & Hm & _ & ->) | [Hr ->]]]]].
  - exists v. split; [exact Hget | apply extends_refl].
  - destruct (sectref_eq_dec r r0) as [->|Hne].
    + rewrite deref_store_same, get_set.
      destruct (String.eqb o0 o) eqn:E.
      * apply String.eqb_eq in E. subst o0. rewrite Hl in Hget.
        injection Hget as <-. eexists. split; [reflexivity|].
        right. now exists l, [x].
      * exists v. split; [exact Hget | apply extends_refl].
    + rewrite deref_store_other by exact Hne.
      exists v. split; [exact Hget | apply extends_refl].
  - destruct (sectref_eq_dec r r0) as [->|Hne].
    + rewrite deref_store_same, get_set.
      destruct (String.eqb (optionxform (rstrip x)) o) eqn:E.
      * apply String.eqb_eq in E. subst o. unfold PyDict.mem in Hm.
        rewrite Hget in Hm. discriminate.
      * exists v. split; [exact Hget | apply extends_refl].
    + rewrite deref_store_other by exact Hne.
      exists v. split; [exact Hget | apply extends_refl].
  - rewrite deref_new_section. destruct r as [|n].
    + exists v. split; [exact Hget | apply extends_refl].
    + destruct (String.eqb name n) eqn:E.
      * apply String.eqb_eq in E. subst n. simpl in Hget.
        unfold PyDict.mem in Hm.
        destruct (PyDict.get (_sections self) name); discriminate.
      * exists v. split; [exact Hget | apply extends_refl].
  - rewrite deref_new_section. destruct r as [|n].
    + exists v. split; [exact Hget | apply extends_refl].
    + destruct (String.eqb fake_header n) eqn:E.
      * apply String.eqb_eq in E. subst n.
        destruct Hguard as [Hg|Hg]; congruence.
      * exists v. split; [exact Hget | apply extends_refl].
Qed.

Lemma get_join_section d o :
  PyDict.get (join_section d) o = option_map join_value (PyDict.get d o).
Proof.
  induction d as [|[k v] d IH]; simpl; auto.
  now destruct (String.eqb o k).
Qed.

Lemma deref_join self r :
  deref (_join_multiline_values self) r = join_section (deref self r).
Proof.
  destruct r as [|n]; simpl; auto.
  induction (_sections self) as [|[k d] s IH]; simpl; auto.
  now destruct (String.eqb n k).
Qed.

Lemma joined_extends v v' : joined v -> extends v v' -> v' = v.
Proof.
  intros Hj [-> | (l & l' & -> & _)]; [reflexivity | contradiction].
Qed.

Lemma joined_join_value v : joined v -> join_value v = v.
Proof. now destruct v. Qed.

(** A value that the parser holds before the call, [None] or a string as
    earlier calls leave them, is still there and the same after the call,
    however the call ends: later files never override earlier ones.  The
    section named as the placeholder is the exception. *)
Theorem read_keeps_earlier_values self fp r o v :
  r <> RSection fake_header -> joined v ->
  PyDict.get (deref self r) o = Some v ->
  PyDict.get (deref (fst (_read self fp)) r) o = Some v.
Proof.
  intros Hr Hj Hget.
  pose (P := fun (self1 : parser) (st1 : locals) =>
               PyDict.get (deref self1 r) o = Some v).
  assert (Hstep : forall self1 st1 lineno line self' st',
            P self1 st1 -> read_line self1 st1 lineno line = Next self' st' ->
            P self' st').
  { intros self1 st1 lineno line self' st' HP H. unfold P in *.
    destruct (read_line_keeps _ _ _ _ _ _ r o v H (or_introl Hr) HP)
      as (v' & Hv' & Hext).
    now rewrite (joined_extends v v' Hj Hext) in Hv'. }
  assert (Hjoin : forall self', P self' locals_init ->
            PyDict.get (deref (_join_multiline_values self') r) o = Some v).
  { intros self' HP. unfold P in HP.
    rewrite deref_join, get_join_section, HP. simpl.
    now rewrite joined_join_value. }
  unfold _read.
  destruct (read_lines self locals_init 1 fp) as [self' st|self' x|] eqn:E.
  - pose proof (read_lines_next P Hstep fp _ _ _ _ _ Hget E) as HP.
    destruct (e st); simpl; now apply Hjoin.
  - destruct (read_lines_raise P Hstep fp _ _ _ _ _ Hget E)
      as (self1 & st1 & n1 & line1 & HP & Hraise).
    apply read_line_raise in Hraise. destruct Hraise as [-> _]. exact HP.
  - exact Hget.
Qed.

Lemma read_keeps_earlier_values_witness :
  PyDict.get
    (deref (fst (_read
                   (fst (_read customConfigParser_init
                           (fp_lines (nl ["[s]"; "a=1"]))))
                   (fp_lines (nl ["[s]"; "a=2"; "b=3"]))))
           (RSection "s")) "a" = Some (VStr "1").
Proof.
  apply (read_keeps_earlier_values
           (fst (_read customConfigParser_init
                   (fp_lines (nl ["[s]"; "a=1"]))))
           (fp_lines (nl ["[s]"; "a=2"; "b=3"])) (RSection "s") "a"
           (VStr "1")).
  - discriminate.
  - exact I.
  - reflexivity.
Defined.

(** ** Values at the end of a read *)

(** When [_read] returns or raises the aggregate ParsingError, every value
    of every section has been joined: it is a string or [None], never a
    list of lines. *)
Theorem read_joins_values self fp r o v :
  snd (_read self fp) = Returns \/
  (exists errors, snd (_read self fp) = Raises (ParsingError errors)) ->
  PyDict.get (deref (fst (_read self fp)) r) o = Some v ->
  joined v.
Proof.
  assert (Hjoin : forall self',
            PyDict.get (deref (_join_multiline_values self') r) o = Some v ->
            joined v).
  { intros self'. rewrite deref_join, get_join_section.
    destruct (PyDict.get (deref self' r) o) as [[|l|s]|]; simpl;
      intros H; try discriminate; injection H as <-; exact I. }
  unfold _read.
  destruct (read_lines self locals_init 1 fp) as [self' st|self' x|] eqn:E.
  - destruct (e st); simpl; intros _; apply Hjoin.
  - simpl. intros Hout.
    destruct (read_lines_raise (fun _ _ => True) (fun _ _ _ _ _ _ _ _ => I)
                fp _ _ _ _ _ I E)
      as (self1 & st1 & n1 & line1 & _ & Hraise).
    apply read_line_raise in Hraise.
    destruct Hraise as (_ & [-> | [(k & ->) | (_ & [(n & ->)|(n & ->)])]]);
      destruct Hout as [H | (errors & H)]; discriminate.
  - simpl. intros [H | (errors & H)]; discriminate.
Qed.

Lemma read_joins_values_witness :
  joined (VStr (join NL ["1"; "2"])).
Proof.
  apply (read_joins_values customConfigParser_init
           (fp_lines (nl ["[s]"; "a=1"; "  2"])) (RSection "s") "a").
  - left. reflexivity.
  - reflexivity.
Defined.

(** ** The default section *)

Lemma mem_join_sections self n :
  PyDict.mem (_sections (_join_multiline_values self)) n
  = PyDict.mem (_sections self) n.
Proof.
  unfold PyDict.mem. simpl.
  induction (_sections self) as [|[k d] s IH]; simpl; auto.
  now destruct (String.eqb n k).
Qed.

(** What one line does to the names of the sections, in a state that
    [_read] reaches: it adds at most one name, which is not the name of the
    default section unless it is the name of the placeholder. *)
Lemma read_line_section_names self st lineno line self' st' n :
  inv self st ->
  read_line self st lineno line = Next self' st' ->
  PyDict.mem (_sections self') n = true ->
  PyDict.mem (_sections self) n = true \/
  n <> default_section self \/ n = fake_header.
Proof.
  intros Hinv H Hm. apply read_line_shape in H.
  assert (Hstore : forall r d0 o0 v0,
            cursect st = Some r ->
            d0 = PyDict.set (deref self r) o0 v0 ->
            PyDict.mem (_sections (store self r d0)) n
            = PyDict.mem (_sections self) n).
  { intros r d0 o0 v0 Hr ->.
    destruct (inv_cur _ _ Hinv r Hr) as (m & _ & -> & _).
    apply (grows_store self m o0 v0). }
  destruct H as [-> | [(r & o & l & x & Hr & _ & ->) |
                [(r & x & v & Hr & _ & _ & ->) |
                [(name & _ & Hne & ->) | [_ ->]]]]].
  - now left.
  - left. now rewrite (Hstore r _ o _ Hr eq_refl) in Hm.
  - left. now rewrite (Hstore r _ _ v Hr eq_refl) in Hm.
  - simpl in Hm. rewrite mem_set in Hm.
    destruct (String.eqb name n) eqn:E; [|now left].
    apply String.eqb_eq in E. subst n. right; now left.
  - simpl in Hm. rewrite mem_set in Hm.
    destruct (String.eqb fake_header n) eqn:E; [|now left].
    apply String.eqb_eq in E. now right; right.
Qed.

(** The default section is never stored among the sections: if its name is
    not the name of the placeholder and [_sections] does not hold it before
    the call, [_sections] does not hold it after the call, however the call
    ends.  A header with that name sends its options to [_defaults]. *)
Theorem read_default_section_apart self fp :
  default_section self <> fake_header ->
  PyDict.mem (_sections self) (default_section self) = false ->
  PyDict.mem (_sections (fst (_read self fp))) (default_section self) = false.
Proof.
  intros Hne Hm.
  pose (P := fun (self1 : parser) (st1 : locals) =>
               inv self1 st1 /\
               default_section self1 = default_section self /\
               PyDict.mem (_sections self1) (default_section self) = false).
  assert (Hstep : forall self1 st1 lineno line self' st',
            P self1 st1 -> read_line self1 st1 lineno line = Next self' st' ->
            P self' st').
  { intros self1 st1 lineno line self' st' (Hinv & Hd & Hm1) H.
    split; [now apply (inv_read_line self1 st1 lineno line)|].
    split; [destruct (read_line_strict _ _ _ _ _ _ H) as [_ ->]; exact Hd|].
    destruct (PyDict.mem (_sections self') (default_section self)) eqn:E;
      [|reflexivity].
    destruct (read_line_section_names _ _ _ _ _ _ _ Hinv H E)
      as [H1 | [H1 | H1]]; congruence. }
  assert (Hinit : P self locals_init).
  { split; [apply inv_init | now split]. }
  unfold _read.
  destruct (read_lines self locals_init 1 fp) as [self' st|self' x|] eqn:E.
  - destruct (read_lines_next P Hstep fp _ _ _ _ _ Hinit E) as (_ & _ & H).
    destruct (e st); cbn [fst]; now rewrite mem_join_sections.
  - destruct (read_lines_raise P Hstep fp _ _ _ _ _ Hinit E)
      as (self1 & st1 & n1 & line1 & (_ & _ & H) & Hraise).
    apply read_line_raise in Hraise. destruct Hraise as [-> _]. exact H.
  - exact Hm.
Qed.

Lemma read_default_section_apart_witness :
  PyDict.mem
    (_sections (fst (_read customConfigParser_init
                       (fp_lines (nl ["[DEFAULT]"; "a=1"])))))
    (default_section customConfigParser_init) = false.
Proof.
  apply (read_default_section_apart customConfigParser_init
           (fp_lines (nl ["[DEFAULT]"; "a=1"]))).
  - discriminate.
  - reflexivity.
Defined.

(** ** Option names are normalized *)

Lemma lower_char_idem c : lower_char (lower_char c) = lower_char c.
Proof.
  destruct c as [[] [] [] [] [] [] [] []]; reflexivity.
Qed.

Lemma optionxform_idem s : optionxform (optionxform s) = optionxform s.
Proof.
  unfold optionxform. induction s as [|c s IH]; simpl; auto.
  now rewrite lower_char_idem, IH.
Qed.

Section ForallbDict.
Context {V : Type}.
Variable P : string * V -> bool.

Lemma forallb_get (d : PyDict.t V) k v :
  forallb P d = true -> PyDict.get d k = Some v -> P (k, v) = true.
Proof.
  induction d as [|[k' v'] d IH]; simpl; [discriminate|].
  intros H. apply andb_true_iff in H. destruct H as [H1 H2].
  destruct (String.eqb k k') eqn:E; auto.
  apply String.eqb_eq in E. subst k'. intros H; now injection H as <-.
Qed.

Lemma forallb_set (d : PyDict.t V) k v :
  forallb P d = true -> P (k, v) = true ->
  forallb P (PyDict.set d k v) = true.
Proof.
  intros Hd Hk. induction d as [|[k' v'] d IH]; simpl.
  - now rewrite Hk.
  - simpl in Hd. apply andb_true_iff in Hd. destruct Hd as [H1 H2].
    destruct (String.eqb k k') eqn:E; simpl.
    + apply String.eqb_eq in E. subst k'. now rewrite Hk, H2.
    + now rewrite H1, IH.
Qed.

End ForallbDict.

Lemma names_normal_deref self r :
  keys_normal self = true -> names_normal (deref self r) = true.
Proof.
  unfold keys_normal. intros H. apply andb_true_iff in H.
  destruct H as [Hd Hs]. destruct r as [|n]; simpl; auto.
  destruct (PyDict.get (_sections self) n) as [d|] eqn:E; auto.
  apply (forallb_get _ _ _ _ Hs E).
Qed.

Lemma keys_normal_store self r d :
  keys_normal self = true -> names_normal d = true ->
  keys_normal (store self r d) = true.
Proof.
  unfold keys_normal. intros H Hd. apply andb_true_iff in H.
  destruct H as [H1 H2]. destruct r as [|n]; simpl.
  - now rewrite Hd, H2.
  - rewrite H1. simpl. now apply forallb_set.
Qed.

Lemma keys_normal_new_section self name :
  keys_normal self = true ->
  keys_normal (with_sections self (PyDict.set (_sections self) name []))
  = true.
Proof.
  unfold keys_normal. intros H. apply andb_true_iff in H.
  destruct H as [H1 H2]. simpl. rewrite H1. simpl.
  now apply forallb_set.
Qed.

Lemma names_normal_set d o v :
  names_normal d = true -> String.eqb (optionxform o) o = true ->
  names_normal (PyDict.set d o v) = true.
Proof. intros Hd Ho. now apply forallb_set. Qed.

Lemma names_normal_join d : names_normal (join_section d) = names_normal d.
Proof.
  unfold names_normal, join_section.
  induction d as [|[k v] d IH]; simpl; auto. now rewrite IH.
Qed.

Lemma keys_normal_join self :
  keys_normal (_join_multiline_values self) = keys_normal self.
Proof.
  unfold keys_normal. simpl. rewrite names_normal_join. f_equal.
  induction (_sections self) as [|[k d] s IH]; simpl; auto.
  now rewrite names_normal_join, IH.
Qed.

Lemma keys_normal_step self st lineno line self' st' :
  keys_normal self = true ->
  read_line self st lineno line = Next self' st' ->
  keys_normal self' = true.
Proof.
  intros Hk H. apply read_line_shape in H.
  destruct H as [-> | [(r & o & l & x & _ & Hl & ->) |
                [(r & x & v & _ & _ & _ & ->) |
                [(name & _ & _ & ->) | [_ ->]]]]]; auto.
  - apply keys_normal_store; auto.
    pose proof (names_normal_deref self r Hk) as Hd.
    apply names_normal_set; auto.
    apply (forallb_get _ _ _ _ Hd Hl).
  - apply keys_normal_store; auto.
    apply names_normal_set; [now apply names_normal_deref|].
    rewrite optionxform_idem. apply String.eqb_refl.
  - now apply keys_normal_new_section.
  - now apply keys_normal_new_section.
Qed.

(** Every option name that [_read] stores is in the form [optionxform]
    gives it (lower case): if the names the parser holds before the call are
    in that form, so are the names it holds after the call, however the
    call ends. *)
Theorem read_keeps_names_normal self fp :
  keys_normal self = true -> keys_normal (fst (_read self fp)) = true.
Proof.
  intros Hk.
  pose (P := fun (self1 : parser) (st1 : locals) => keys_normal self1 = true).
  assert (Hstep : forall self1 st1 lineno line self' st',
            P self1 st1 -> read_line self1 st1 lineno line = Next self' st' ->
            P self' st').
  { intros self1 st1 lineno line self' st'. apply keys_normal_step. }
  unfold _read.
  destruct (read_lines self locals_init 1 fp) as [self' st|self' x|] eqn:E.
  - pose proof (read_lines_next P Hstep fp _ _ _ _ _ Hk E) as H.
    destruct (e st); cbn [fst]; now rewrite keys_normal_join.
  - destruct (read_lines_raise P Hstep fp _ _ _ _ _ Hk E)
      as (self1 & st1 & n1 & line1 & H & Hraise).
    apply read_line_raise in Hraise. destruct Hraise as [-> _]. exact H.
  - exact Hk.
Qed.

Lemma read_keeps_names_normal_witness :
  keys_normal (fst (_read customConfigParser_init
                      (fp_lines (nl ["[s]"; "Key = 1"; "KEY = 2"]))))
  = true.
Proof.
  apply (read_keeps_names_normal customConfigParser_init
           (fp_lines (nl ["[s]"; "Key = 1"; "KEY = 2"]))).
  reflexivity.
Defined.

(** ** Which lines the parser as constructed rejects *)

Lemma newline_isspace c : is_newline c = true -> isspace c = true.
Proof.
  unfold is_newline. intros H. apply Ascii.eqb_eq in H. now subst c.
Qed.

Lemma lstrip_head s c r : lstrip s = String c r -> isspace c = false.
Proof.
  induction s as [|a s IH]; simpl; [discriminate|].
  destruct (isspace a) eqn:E; auto. intros H. now injection H as <- <-.
Qed.

Lemma rstrip_head s c r :
  rstrip s = String c r -> exists s', s = String c s'.
Proof.
  destruct s as [|a s]; simpl; [discriminate|].
  destruct (rstrip s); [destruct (isspace a); [discriminate|]|];
    intros H; injection H as <- <-; eauto.
Qed.

Lemma strip_head line c r : strip line = String c r -> isspace c = false.
Proof.
  unfold strip. intros H. apply rstrip_head in H. destruct H as [s' H].
  now apply lstrip_head in H.
Qed.

Lemma line_ok_tail c s : line_ok (String c s) = true -> line_ok s = true.
Proof.
  destruct s as [|a s]; auto. cbn [line_ok]. intros H.
  apply andb_true_iff in H. apply H.
Qed.

Lemma line_ok_lstrip s : line_ok s = true -> line_ok (lstrip s) = true.
Proof.
  induction s as [|c s IH]; auto. intros H. cbn [lstrip].
  destruct (isspace c); auto. apply IH. now apply line_ok_tail in H.
Qed.

Lemma has_lf_rstrip s : line_ok s = true -> has_lf (rstrip s) = false.
Proof.
  induction s as [|c s IH]; auto. intros H.
  pose proof (IH (line_ok_tail _ _ H)) as IH'. cbn [rstrip].
  destruct s as [|a s].
  - simpl. destruct (isspace c) eqn:E; auto. simpl.
    destruct (is_newline c) eqn:E'; auto.
    apply newline_isspace in E'. congruence.
  - cbn [line_ok] in H. apply andb_true_iff in H. destruct H as [Hc _].
    apply negb_true_iff in Hc.
    revert IH'. destruct (rstrip (String a s)) as [|b r]; intros IH'.
    + destruct (isspace c); auto. simpl. now rewrite Hc.
    + cbn [has_lf] in *. now rewrite Hc, IH'.
Qed.

Lemma has_lf_strip line : line_ok line = true -> has_lf (strip line) = false.
Proof.
  intros H. apply has_lf_rstrip. now apply line_ok_lstrip.
Qed.

(** With a value and no value allowed, the option pattern matches every
    text without line feed. *)
Lemma optcre_match_total value :
  has_lf value = false -> Re.optcre_match value <> None.
Proof.
  induction value as [|c s IH]; intros H.
  - discriminate.
  - cbn [Re.optcre_match]. destruct (Re.opt_tail (String c s)) as [[vi v]|];
      [discriminate|].
    cbn [has_lf] in H. apply orb_false_iff in H. destruct H as [Hc Hs].
    rewrite Hc. specialize (IH Hs).
    destruct (Re.optcre_match s) as [[[o vi] v]|]; [discriminate|congruence].
Qed.

(** The group [option] is empty only when the text, which does not start
    with white space, starts with the delimiter. *)
Lemma optcre_match_empty_name c s vi v :
  isspace c = false ->
  Re.optcre_match (String c s) = Some (EmptyString, vi, v) ->
  startswith (String c s) "=" = true.
Proof.
  intros Hc. cbn [Re.optcre_match].
  destruct (Re.opt_tail (String c s)) as [[vi' v']|] eqn:E.
  - intros _. unfold Re.opt_tail in E. cbn [lstrip] in E. rewrite Hc in E.
    destruct c as [[] [] [] [] [] [] [] []]; try discriminate.
    now destruct s.
  - destruct (is_newline c); [discriminate|].
    destruct (Re.optcre_match s) as [[[o vi'] v']|]; discriminate.
Qed.

Lemma read_line_prefixes self st lineno line self' st' :
  read_line self st lineno line = Next self' st' ->
  _comment_prefixes self' = _comment_prefixes self /\
  _inline_comment_prefixes self' = _inline_comment_prefixes self.
Proof.
  intros H. apply read_line_shape in H.
  destruct H as [-> | [(r & o & l & x & _ & _ & ->) |
                [(r & x & v & _ & _ & _ & ->) |
                [(name & _ & _ & ->) | [_ ->]]]]];
    try (destruct r); auto.
Qed.

(** Without comment prefixes, a line without inner line feed adds an entry
    to the error only if its content starts with the delimiter. *)
Lemma read_line_rejects self st lineno line self' st' :
  _comment_prefixes self = [] -> _inline_comment_prefixes self = [] ->
  line_ok line = true ->
  read_line self st lineno line = Next self' st' ->
  e st' = e st \/
  (e st' = _handle_error (e st) lineno line /\
   startswith (strip line) "=" = true).
Proof.
  intros Hc Hi Hok. unfold read_line.
  destruct (no_prefixes_keeps self line Hi Hc) as [-> _]. cbn [slice_to].
  pose proof (has_lf_strip line Hok) as Hlf.
  destruct (strip line) as [|c value] eqn:Hv.
  - unfold read_blank, append_to.
    repeat match goal with
           | |- context [match ?x with _ => _ end] => destruct x
           end; intros H; try discriminate; injection H as <- <-; now left.
  - pose proof (strip_head line c value Hv) as Hsp.
    pose proof (optcre_match_total _ Hlf) as Htot.
    unfold read_content, append_to, read_header, read_headerless,
      read_option.
    destruct (Re.optcre_match (String c value)) as [[[o vi] v]|] eqn:Ho;
      [|congruence].
    destruct o as [|a o].
    + pose proof (optcre_match_empty_name c value vi v Hsp Ho) as Hst.
      repeat match goal with
             | |- context [match ?x with _ => _ end] => destruct x
             end; intros H; try discriminate; injection H as <- <-; simpl;
        auto.
    + repeat match goal with
             | |- context [match ?x with _ => _ end] => destruct x
             end; intros H; try discriminate; injection H as <- <-; simpl;
        auto.
Qed.

Lemma line_ok_cons a t :
  is_newline a = false -> line_ok t = true -> line_ok (String a t) = true.
Proof.
  intros Ha Ht. destruct t as [|b t]; auto.
  cbn [line_ok] in *. now rewrite Ha, Ht.
Qed.

Lemma has_lf_app_char cur c :
  has_lf cur = false -> line_ok (cur ++ String c EmptyString) = true.
Proof.
  induction cur as [|a cur IH]; auto. cbn [has_lf]. intros H.
  apply orb_false_iff in H. destruct H as [Ha Hcur].
  change (String a cur ++ String c "") with (String a (cur ++ String c "")).
  apply line_ok_cons; auto.
Qed.

Lemma has_lf_app_char_no cur c :
  has_lf cur = false -> is_newline c = false ->
  has_lf (cur ++ String c EmptyString) = false.
Proof.
  induction cur as [|a cur IH]; simpl; intros H Hc.
  - now rewrite Hc.
  - apply orb_false_iff in H. destruct H as [Ha Hcur].
    now rewrite Ha, IH.
Qed.

Lemma has_lf_line_ok s : has_lf s = false -> line_ok s = true.
Proof.
  induction s as [|c s IH]; auto. cbn [has_lf]. intros H.
  apply orb_false_iff in H. destruct H as [Hc Hs].
  apply line_ok_cons; auto.
Qed.

(** The lines of a text have their line feed at the end only. *)
Lemma fp_lines_ok text : forallb line_ok (fp_lines text) = true.
Proof.
  unfold fp_lines.
  assert (H : has_lf EmptyString = false) by reflexivity.
  revert H. generalize EmptyString as cur.
  induction text as [|c text IH]; intros cur Hcur; cbn [fp_lines_from].
  - destruct cur; auto. cbn [forallb]. now rewrite has_lf_line_ok.
  - destruct (is_newline c) eqn:E.
    + cbn [forallb]. rewrite has_lf_app_char by exact Hcur. now apply IH.
    + apply IH. now apply has_lf_app_char_no.
Qed.

(** What the parser as constructed reports: with no comment prefix and the
    option pattern of the constructor, every entry of the ParsingError that
    [_read] raises on a text is a line of that text whose content, once
    trimmed, starts with the delimiter. *)
Theorem read_rejects_only_delimiter_lines self text errors :
  _comment_prefixes self = [] -> _inline_comment_prefixes self = [] ->
  snd (_read self (fp_lines text)) = Raises (ParsingError errors) ->
  Forall (fun entry : Z * pyrepr =>
            exists line,
              snd entry = Repr line /\ In line (fp_lines text) /\
              startswith (strip line) "=" = true) errors.
Proof.
  intros Hc Hi.
  pose proof (fp_lines_ok text) as Hok.
  assert (Hgen : forall fp self1 st1 lineno self' st',
            _comment_prefixes self1 = [] ->
            _inline_comment_prefixes self1 = [] ->
            forallb line_ok fp = true ->
            read_lines self1 st1 lineno fp = Next self' st' ->
            exists new,
              errors_of (e st') = (errors_of (e st1) ++ new)%list /\
              Forall (fun entry : Z * pyrepr =>
                        exists line,
                          snd entry = Repr line /\ In line fp /\
                          startswith (strip line) "=" = true) new).
  { induction fp as [|line fp IH];
      intros self1 st1 lineno self' st' Hc1 Hi1 Hfp; simpl.
    - intros H; injection H as <- <-. exists []. now rewrite app_nil_r.
    - simpl in Hfp. apply andb_true_iff in Hfp. destruct Hfp as [Hl Hfp].
      destruct (read_line self1 st1 lineno line) as [self2 st2| |] eqn:E;
        try discriminate.
      destruct (read_line_prefixes _ _ _ _ _ _ E) as [Hc2 Hi2].
      rewrite Hc1 in Hc2. rewrite Hi1 in Hi2. intros H.
      destruct (IH _ _ _ _ _ Hc2 Hi2 Hfp H) as (new & Hnew & Hall).
      assert (Hall' : Forall (fun entry : Z * pyrepr =>
                        exists l,
                          snd entry = Repr l /\ (line = l \/ In l fp) /\
                          startswith (strip l) "=" = true) new).
      { eapply Forall_impl; [|exact Hall]. simpl.
        intros a (l & H1 & H2 & H3). exists l. auto. }
      destruct (read_line_rejects _ _ _ _ _ _ Hc1 Hi1 Hl E)
        as [He | [He Hst]].
      + exists new. now rewrite Hnew, He.
      + exists ((lineno, Repr line) :: new).
        rewrite Hnew, He, errors_of_handle_error, <- app_assoc.
        split; [reflexivity|]. constructor; [|exact Hall'].
        exists line. simpl. auto. }
  unfold _read.
  destruct (read_lines self locals_init 1 (fp_lines text))
    as [self' st|self' x|] eqn:E.
  - destruct (Hgen _ _ _ _ _ _ Hc Hi Hok E) as (new & Hnew & Hall).
    destruct (e st) as [errs|]; simpl; intros H; [|discriminate].
    injection H as <-. simpl in Hnew. now subst new.
  - simpl. intros H; injection H as ->.
    destruct (read_lines_raise (fun _ _ => True) (fun _ _ _ _ _ _ _ _ => I)
                _ _ _ _ _ _ I E)
      as (self1 & st1 & n1 & line1 & _ & Hraise).
    apply read_line_raise in Hraise.
    destruct Hraise as (_ & [H | [(k & H) | (_ & [(n & H)|(n & H)])]]);
      discriminate.
  - discriminate.
Qed.

Lemma read_rejects_only_delimiter_lines_witness :
  Forall (fun entry : Z * pyrepr =>
            exists line,
              snd entry = Repr line /\
              In line (fp_lines (nl ["[s]"; "=bad"; "a=1"])) /\
              startswith (strip line) "=" = true)
         [(2, Repr ("=bad" ++ NL))].
Proof.
  apply (read_rejects_only_delimiter_lines customConfigParser_init
           (nl ["[s]"; "=bad"; "a=1"]) [(2, Repr ("=bad" ++ NL))]);
    reflexivity.
Defined.

(** ** The end of a value when blank lines are not part of values *)

Lemma first_nonspace_at_bounds s : forall pos i,
  first_nonspace_at s pos = Some i -> pos <= i < pos + len s.
Proof.
  unfold len. induction s as [|c s IH]; intros pos i; simpl; [discriminate|].
  destruct (isspace c).
  - intros H. apply IH in H. lia.
  - intros H. injection H as <-. lia.
Qed.

Lemma indent_of_bounds line : 0 <= indent_of line <= len line.
Proof.
  unfold indent_of, Re.NONSPACECRE_search.
  destruct (first_nonspace_at line 0) as [i|] eqn:E.
  - apply first_nonspace_at_bounds in E. lia.
  - unfold len. lia.
Qed.

(** When [empty_lines_in_values] is off, a line that is empty once comments
    are stripped changes nothing but the baseline, which becomes
    [sys.maxsize]: whatever its indentation, no line (of a length that fits
    a machine word) continues a value after it. *)
Theorem blank_line_ends_value self st lineno line cs :
  _empty_lines_in_values self = false ->
  keeps self line cs EmptyString ->
  read_line self st lineno line = Next self (set_indent st maxsize) /\
  forall next r o,
    len next <= maxsize -> ~ continues (set_indent st maxsize) next r o.
Proof.
  intros Hoff Hk. split.
  - rewrite (read_line_blank _ _ _ _ _ Hk). unfold read_blank.
    now rewrite Hoff.
  - intros next r o Hlen (_ & _ & Hi). simpl in Hi.
    pose proof (indent_of_bounds next). lia.
Qed.

Lemma blank_line_ends_value_witness :
  read_line
    (mkParser [] [] false false "DEFAULT" [("s", [("a", VList ["1"])])] [])
    st_s_a 3 NL
  = Next
      (mkParser [] [] false false "DEFAULT" [("s", [("a", VList ["1"])])] [])
      (set_indent st_s_a maxsize) /\
  forall next r o,
    len next <= maxsize -> ~ continues (set_indent st_s_a maxsize) next r o.
Proof.
  apply (blank_line_ends_value
           (mkParser [] [] false false "DEFAULT"
              [("s", [("a", VList ["1"])])] [])
           st_s_a 3 NL None).
  - reflexivity.
  - split; reflexivity.
Defined.

(** ** Witnesses of the lemmas on inline comments and on the error *)

Lemma single_prefix_earliest_witness :
  exists comment_start,
    comment_start_of
      (with_inline_comment_prefixes customConfigParser_init ["#"])
      "a=1 # note" = Some comment_start /\
    match comment_start with
    | Some k => comment_at "a=1 # note" "#" k /\
                forall k', comment_at "a=1 # note" "#" k' -> k <= k'
    | None => forall k, ~ comment_at "a=1 # note" "#" k
    end.
Proof.
  apply (single_prefix_earliest
           (with_inline_comment_prefixes customConfigParser_init ["#"])
           "a=1 # note" "#"); reflexivity.
Defined.

Lemma errors_in_file_order_witness :
  StronglySorted (fun a b : Z * pyrepr => fst a < fst b)
    [(2, Repr ("=bad" ++ NL)); (4, Repr ("=worse" ++ NL))].
Proof.
  eapply (errors_in_file_order customConfigParser_init
            (fp_lines (nl ["[s]"; "=bad"; "a=1"; "=worse"])));
    reflexivity.
Defined.

(** ** Lines as the writer of a configuration file lays them out *)

Lemma str_app_assoc (a b c : string) : ((a ++ b) ++ c = a ++ (b ++ c))%string.
Proof. induction a as [|x a IH]; simpl; auto. now rewrite IH. Qed.

Lemma rstrip_app_space_char s c :
  isspace c = true -> rstrip (s ++ String c EmptyString) = rstrip s.
Proof.
  intros Hc. induction s as [|a s IH]; simpl.
  - now rewrite Hc.
  - now rewrite IH.
Qed.

Lemma rstrip_app_keep a b :
  rstrip b = b -> b <> EmptyString -> rstrip (a ++ b) = (a ++ b)%string.
Proof.
  intros Hb Hne. induction a as [|x a IH]; simpl; auto.
  rewrite IH. destruct (a ++ b)%string eqn:E; auto.
  destruct a; simpl in E; congruence.
Qed.

Lemma rstrip_tail c s :
  rstrip (String c s) = String c s -> s <> EmptyString -> rstrip s = s.
Proof.
  simpl. intros H Hne. destruct (rstrip s) as [|a r] eqn:E.
  - destruct (isspace c); [discriminate|]. injection H as <-. congruence.
  - now injection H.
Qed.

Lemma lstrip_app_keep a b :
  lstrip a <> EmptyString -> lstrip (a ++ b) = (lstrip a ++ b)%string.
Proof.
  induction a as [|x a IH]; simpl; [congruence|].
  destruct (isspace x); auto.
Qed.

Lemma rstrip_lstrip_nonempty s :
  rstrip s = s -> s <> EmptyString -> lstrip s <> EmptyString.
Proof.
  induction s as [|c s IH]; [congruence|]. intros H _. cbn [lstrip].
  destruct (isspace c) eqn:E; [|discriminate].
  destruct s as [|a s].
  - simpl in H. rewrite E in H. discriminate.
  - apply IH; [|discriminate]. apply (rstrip_tail c); [exact H|discriminate].
Qed.

Lemma has_char_lstrip ch s : has_char ch s = false -> has_char ch (lstrip s) = false.
Proof.
  induction s as [|c s IH]; auto. cbn [lstrip]. destruct (isspace c); auto.
  cbn [has_char]. intros H. apply orb_false_iff in H. now apply IH.
Qed.

Lemma before_last_bracket_name name :
  has_lf name = false ->
  Re.before_last_bracket (name ++ "]") = Some name.
Proof.
  induction name as [|c name IH]; [reflexivity|]. cbn [has_lf]. intros H.
  apply orb_false_iff in H. destruct H as [Hc Hn].
  change (String c name ++ "]")%string with (String c (name ++ "]")).
  cbn [Re.before_last_bracket]. now rewrite Hc, IH.
Qed.

Lemma strip_header_line name :
  strip ("[" ++ name ++ "]" ++ NL) = ("[" ++ name ++ "]")%string.
Proof.
  unfold strip.
  change ("[" ++ name ++ "]" ++ NL)%string
    with (String "[" (name ++ String "]" NL)).
  cbn [lstrip]. change (isspace "[") with false. cbv iota.
  replace (String "[" (name ++ String "]" NL))
    with ((String "[" (name ++ "]")) ++ NL)%string
    by (simpl; now rewrite (str_app_assoc name "]" NL)).
  unfold NL. rewrite rstrip_app_space_char by reflexivity.
  change (rstrip (String "[" name ++ "]") = (String "[" name ++ "]")%string).
  apply rstrip_app_keep; [reflexivity | discriminate].
Qed.

(** What a header line does in a parser as constructed. *)
Lemma header_line_read self st lineno name :
  as_constructed self ->
  name <> EmptyString -> has_lf name = false -> 0 <= indent_level st ->
  exists self' st',
    read_line self st lineno ("[" ++ name ++ "]" ++ NL) = Next self' st' /\
    self' = (if PyDict.mem (_sections self) name
                || String.eqb name (default_section self)
             then self
             else with_sections self (PyDict.set (_sections self) name []))
    /\
    sectname st' = Some name /\ optname st' = None /\
    cursect st' = Some (ref_of self' name) /\
    indent_level st' = 0 /\ e st' = e st /\
    (name <> default_section self ->
     PyDict.mem (_sections self') name = true).
Proof.
  intros (Hc & Hi & Hstrict) Hne Hlf Hind.
  pose proof (no_prefixes_keeps self ("[" ++ name ++ "]" ++ NL) Hi Hc) as Hk.
  rewrite strip_header_line in Hk.
  rewrite (read_line_content _ _ _ _ _ _ Hk) by discriminate.
  unfold read_content.
  assert (Hind0 : indent_of ("[" ++ name ++ "]" ++ NL) = 0) by reflexivity.
  rewrite Hind0. apply Z.ltb_ge in Hind. rewrite Hind.
  assert (Hs : Re.SECTCRE_match ("[" ++ name ++ "]") = Some name).
  { change ("[" ++ name ++ "]")%string with (String "[" (name ++ "]")).
    cbn [Re.SECTCRE_match]. rewrite before_last_bracket_name by exact Hlf.
    destruct name; congruence. }
  rewrite Hs.
  assert (Hhead :
    exists self' st',
      read_header self st lineno 0 name = Next self' st' /\
      self' = (if PyDict.mem (_sections self) name
                  || String.eqb name (default_section self)
               then self
               else with_sections self
                      (PyDict.set (_sections self) name [])) /\
      sectname st' = Some name /\ optname st' = None /\
      cursect st' = Some (ref_of self' name) /\
      indent_level st' = 0 /\ e st' = e st /\
      (name <> default_section self ->
       PyDict.mem (_sections self') name = true)).
  { unfold read_header. rewrite Hstrict. cbn [andb].
    destruct (PyDict.mem (_sections self) name) eqn:Hm; cbn [orb].
    - do 2 eexists. repeat split; simpl; auto. unfold ref_of. now rewrite Hm.
    - destruct (String.eqb name (default_section self)) eqn:Hd.
      + apply String.eqb_eq in Hd. do 2 eexists. repeat split; simpl.
        * unfold ref_of. now rewrite Hm.
        * congruence.
      + do 2 eexists. repeat split; simpl.
        * unfold ref_of. simpl. now rewrite mem_set, String.eqb_refl.
        * intros _. now rewrite mem_set, String.eqb_refl. }
  destruct (cursect st); [|exact Hhead].
  destruct (truthy (optname st)); exact Hhead.
Qed.

(** A header as it is written, the name between brackets on a line of its
    own, is read back with that name: for every name that is not empty and
    holds no line feed, the parser as constructed opens the section of that
    name and closes the open option.  The section is created, empty, when
    [_sections] has no section of that name and the name is not that of the
    default section; otherwise the parser is left as it is. *)
Theorem header_line_opens_section self st lineno name :
  as_constructed self ->
  name <> EmptyString -> has_lf name = false -> 0 <= indent_level st ->
  exists self' st',
    read_line self st lineno ("[" ++ name ++ "]" ++ NL) = Next self' st' /\
    self' = (if PyDict.mem (_sections self) name
                || String.eqb name (default_section self)
             then self
             else with_sections self (PyDict.set (_sections self) name []))
    /\
    sectname st' = Some name /\ optname st' = None /\
    cursect st' = Some (ref_of self' name) /\
    indent_level st' = 0 /\ e st' = e st /\
    (name <> default_section self ->
     PyDict.mem (_sections self') name = true).
Proof.
  exact (header_line_read self st lineno name).
Qed.

Lemma header_line_opens_section_witness :
  exists self' st',
    read_line self_s_a st_s_a 3 ("[" ++ "Display" ++ "]" ++ NL)
      = Next self' st' /\
    self' = (if PyDict.mem (_sections self_s_a) "Display"
                || String.eqb "Display" (default_section self_s_a)
             then self_s_a
             else with_sections self_s_a
                    (PyDict.set (_sections self_s_a) "Display" [])) /\
    sectname st' = Some "Display" /\ optname st' = None /\
    cursect st' = Some (ref_of self' "Display") /\
    indent_level st' = 0 /\ e st' = e st_s_a /\
    ("Display" <> default_section self_s_a ->
     PyDict.mem (_sections self') "Display" = true).
Proof.
  apply (header_line_opens_section self_s_a st_s_a 3 "Display").
  - repeat split; reflexivity.
  - discriminate.
  - reflexivity.
  - simpl. lia.
Defined.

Lemma span_line_no_lf v : has_lf v = false -> Re.span_line v = (v, EmptyString).
Proof.
  induction v as [|c v IH]; [reflexivity|]. cbn [has_lf]. intros H.
  apply orb_false_iff in H. destruct H as [Hc Hv].
  cbn [Re.span_line]. now rewrite Hc, IH.
Qed.

Lemma value_to_eol_no_lf v : has_lf v = false -> Re.value_to_eol v = Some v.
Proof.
  intros H. unfold Re.value_to_eol. now rewrite span_line_no_lf.
Qed.

Lemma strip_fixed_lstrip s : strip s = s -> lstrip s = s.
Proof.
  intros H. destruct s as [|c s]; [reflexivity|].
  pose proof (strip_head _ _ _ H) as Hc. cbn [lstrip]. now rewrite Hc.
Qed.

Lemma strip_fixed_rstrip s : strip s = s -> rstrip s = s.
Proof.
  intros H. pose proof (strip_fixed_lstrip s H) as Hl.
  unfold strip in H. now rewrite Hl in H.
Qed.

Lemma opt_tail_other d t :
  isspace d = false -> Ascii.eqb d "=" = false ->
  Re.opt_tail (String d t) = None.
Proof.
  intros Hsp Heq. unfold Re.opt_tail. cbn [lstrip]. rewrite Hsp.
  destruct d as [[] [] [] [] [] [] [] []]; try reflexivity; discriminate.
Qed.

Lemma SECTCRE_match_other c s :
  Ascii.eqb c "[" = false -> Re.SECTCRE_match (String c s) = None.
Proof.
  intros H. unfold Re.SECTCRE_match.
  destruct c as [[] [] [] [] [] [] [] []]; try reflexivity; discriminate.
Qed.

Lemma optcre_match_tail s vi v :
  Re.opt_tail s = Some (vi, v) ->
  Re.optcre_match s = Some (EmptyString, vi, v).
Proof.
  intros H. destruct s; cbn [Re.optcre_match]; now rewrite H.
Qed.

Lemma optcre_match_delimiter value :
  lstrip value = value -> has_lf value = false ->
  Re.optcre_match (" = " ++ value)
  = Some (EmptyString, Some "="%string, Some value).
Proof.
  intros Hlv Hlf. apply optcre_match_tail. unfold Re.opt_tail.
  change (lstrip (" = " ++ value)) with (String "=" (String " " value)).
  cbv iota.
  change (lstrip (String " " value)) with (lstrip value).
  now rewrite Hlv, value_to_eol_no_lf.
Qed.

(** The option pattern on a name, the delimiter between two spaces, and a
    value: the groups are the name and the value. *)
Lemma optcre_match_key_value value : forall key,
  key <> EmptyString -> rstrip key = key ->
  has_char "=" key = false -> has_lf key = false ->
  lstrip value = value -> has_lf value = false ->
  Re.optcre_match (key ++ " = " ++ value)
  = Some (key, Some "="%string, Some value).
Proof.
  induction key as [|c k IH]; [congruence|].
  intros _ Hr Heq Hlf Hlv Hlfv.
  pose proof (rstrip_lstrip_nonempty _ Hr ltac:(discriminate)) as Hl.
  change (String c k ++ " = " ++ value)%string
    with (String c (k ++ " = " ++ value)).
  cbn [Re.optcre_match].
  assert (Htail : Re.opt_tail (String c (k ++ " = " ++ value)) = None).
  { change (String c (k ++ " = " ++ value))
      with (String c k ++ " = " ++ value)%string.
    unfold Re.opt_tail. rewrite lstrip_app_keep by exact Hl.
    pose proof (has_char_lstrip "=" _ Heq) as Hd.
    destruct (lstrip (String c k)) as [|d t] eqn:E; [congruence|].
    apply lstrip_head in E. cbn [has_char] in Hd.
    apply orb_false_iff in Hd. destruct Hd as [Hd _].
    change (String d t ++ " = " ++ value)%string
      with (String d (t ++ " = " ++ value)).
    pose proof (opt_tail_other d (t ++ " = " ++ value) E Hd) as Ht.
    unfold Re.opt_tail in Ht. cbn [lstrip] in Ht. rewrite E in Ht.
    exact Ht. }
  rewrite Htail. cbn [has_lf has_char] in *.
  apply orb_false_iff in Hlf. destruct Hlf as [Hc Hlfk].
  apply orb_false_iff in Heq. destruct Heq as [_ Heqk].
  rewrite Hc. destruct k as [|a k].
  - change ("" ++ " = " ++ value)%string with (" = " ++ value)%string.
    now rewrite optcre_match_delimiter.
  - rewrite IH; auto; [discriminate|].
    apply (rstrip_tail c); [exact Hr | discriminate].
Qed.

Lemma strip_option_line key value :
  strip key = key -> key <> EmptyString ->
  strip value = value -> value <> EmptyString ->
  strip (key ++ " = " ++ value ++ NL) = (key ++ " = " ++ value)%string.
Proof.
  intros Hk Hkne Hv Hvne. unfold strip.
  destruct key as [|c k]; [congruence|].
  pose proof (strip_head _ _ _ Hk) as Hc.
  change (String c k ++ " = " ++ value ++ NL)%string
    with (String c (k ++ " = " ++ value ++ NL)).
  cbn [lstrip]. rewrite Hc.
  replace (String c (k ++ " = " ++ value ++ NL))
    with (((String c k ++ " = ") ++ value) ++ NL)%string
    by (now rewrite !str_app_assoc).
  unfold NL. rewrite rstrip_app_space_char by reflexivity.
  rewrite rstrip_app_keep; [now rewrite str_app_assoc | | exact Hvne].
  now apply strip_fixed_rstrip.
Qed.

(** What a line of name, delimiter and value does in a parser as
    constructed, when the open section lacks the name. *)
Lemma option_line_read self st lineno r key value :
  as_constructed self ->
  cursect st = Some r -> 0 <= indent_level st ->
  key <> EmptyString -> strip key = key ->
  has_char "=" key = false -> has_lf key = false ->
  startswith key "[" = false ->
  value <> EmptyString -> strip value = value -> has_lf value = false ->
  PyDict.mem (deref self r) (optionxform key) = false ->
  exists st',
    read_line self st lineno (key ++ " = " ++ value ++ NL)
    = Next (store self r
              (PyDict.set (deref self r) (optionxform key) (VList [value])))
           st' /\
    cursect st' = Some r /\ optname st' = Some (optionxform key) /\
    e st' = e st.
Proof.
  intros (Hc & Hi & Hstrict) Hr Hind Hkne Hk Heq Hlf Hbr Hvne Hv Hlfv Hmem.
  pose proof (no_prefixes_keeps self (key ++ " = " ++ value ++ NL) Hi Hc)
    as Hkeeps.
  rewrite strip_option_line in Hkeeps by assumption.
  assert (Hne : (key ++ " = " ++ value)%string <> EmptyString)
    by (destruct key; [congruence | discriminate]).
  rewrite (read_line_content _ _ _ _ _ _ Hkeeps Hne).
  unfold read_content.
  assert (Hind0 : indent_of (key ++ " = " ++ value ++ NL) = 0).
  { destruct key as [|c k]; [congruence|].
    pose proof (strip_head _ _ _ Hk) as Hsp.
    unfold indent_of, Re.NONSPACECRE_search.
    change (String c k ++ " = " ++ value ++ NL)%string
      with (String c (k ++ " = " ++ value ++ NL)).
    cbn [first_nonspace_at]. now rewrite Hsp. }
  assert (Hs : Re.SECTCRE_match (key ++ " = " ++ value) = None).
  { destruct key as [|c k]; [congruence|].
    change (String c k ++ " = " ++ value)%string
      with (String c (k ++ " = " ++ value)).
    apply SECTCRE_match_other. cbn [startswith] in Hbr.
    rewrite Ascii.eqb_sym.
    destruct (Ascii.eqb "[" c); [|reflexivity].
    simpl in Hbr. now destruct k. }
  assert (Ho : Re.optcre_match (key ++ " = " ++ value)
               = Some (key, Some "="%string, Some value)).
  { apply optcre_match_key_value; auto.
    - now apply strip_fixed_rstrip.
    - now apply strip_fixed_lstrip. }
  rewrite Hind0, Hs, Hr. apply Z.ltb_ge in Hind. rewrite Hind.
  assert (Hopt :
    exists st',
      read_option self st r lineno 0 (key ++ " = " ++ value ++ NL)
        (key ++ " = " ++ value)
      = Next (store self r
                (PyDict.set (deref self r) (optionxform key) (VList [value])))
             st' /\
      cursect st' = Some r /\ optname st' = Some (optionxform key) /\
      e st' = e st).
  { unfold read_option. rewrite Ho, Hstrict. cbn [andb]. cbv zeta.
    rewrite (strip_fixed_rstrip key Hk), Hmem, Hv.
    eexists. repeat split. simpl. destruct key; [congruence | reflexivity]. }
  destruct (truthy (optname st)); exact Hopt.
Qed.

(** An option as it is written, name, delimiter between two spaces and
    value on one line, is read back: when the open section has no option of
    that name, the parser as constructed stores the value, as a list of one
    line, under the name in lower case, and makes it the open option. *)
Theorem option_line_stores_value self st lineno r key value :
  as_constructed self ->
  cursect st = Some r -> 0 <= indent_level st ->
  key <> EmptyString -> strip key = key ->
  has_char "=" key = false -> has_lf key = false ->
  startswith key "[" = false ->
  value <> EmptyString -> strip value = value -> has_lf value = false ->
  PyDict.mem (deref self r) (optionxform key) = false ->
  exists st',
    read_line self st lineno (key ++ " = " ++ value ++ NL)
    = Next (store self r
              (PyDict.set (deref self r) (optionxform key) (VList [value])))
           st' /\
    cursect st' = Some r /\ optname st' = Some (optionxform key) /\
    e st' = e st.
Proof.
  exact (option_line_read self st lineno r key value).
Qed.

Lemma option_line_stores_value_witness :
  exists st',
    read_line self_s_a st_s_a 3 ("iSize W" ++ " = " ++ "1920" ++ NL)
    = Next (store self_s_a (RSection "s")
              (PyDict.set (deref self_s_a (RSection "s"))
                 (optionxform "iSize W") (VList ["1920"])))
           st' /\
    cursect st' = Some (RSection "s") /\
    optname st' = Some (optionxform "iSize W") /\
    e st' = e st_s_a.
Proof.
  apply (option_line_stores_value self_s_a st_s_a 3 (RSection "s")
           "iSize W" "1920"); try reflexivity; try discriminate.
  repeat split; reflexivity.
Defined.

(** A new parser reads a file of one header and one option, laid out as
    above, into one section that holds the value, joined, under the name of
    the option in lower case, and returns without error.  The name of the
    section is not that of the default section. *)
Theorem read_section_with_option name key value :
  name <> EmptyString -> has_lf name = false ->
  name <> default_section customConfigParser_init ->
  key <> EmptyString -> strip key = key ->
  has_char "=" key = false -> has_lf key = false ->
  startswith key "[" = false ->
  value <> EmptyString -> strip value = value -> has_lf value = false ->
  _read customConfigParser_init
    ["[" ++ name ++ "]" ++ NL; key ++ " = " ++ value ++ NL]
  = (with_sections customConfigParser_init
       [(name, [(optionxform key, VStr value)])],
     Returns).
Proof.
  intros Hn Hnlf Hnd Hk Hks Hkeq Hklf Hkbr Hv Hvs Hvlf.
  assert (Hinit : as_constructed customConfigParser_init)
    by (repeat split; reflexivity).
  destruct (header_line_read customConfigParser_init locals_init 1
              name Hinit Hn Hnlf ltac:(simpl; lia))
    as (self1 & st1 & H1 & Hself1 & _ & _ & Hcur & Hind & He & _).
  change (PyDict.mem (_sections customConfigParser_init) name) with false
    in Hself1.
  cbn [orb] in Hself1. apply String.eqb_neq in Hnd. rewrite Hnd in Hself1.
  change (PyDict.set (_sections customConfigParser_init) name [])
    with [(name, @nil (string * optval))] in Hself1.
  subst self1.
  assert (Href : ref_of (with_sections customConfigParser_init [(name, [])])
                   name = RSection name).
  { unfold ref_of, PyDict.mem. simpl. now rewrite String.eqb_refl. }
  rewrite Href in Hcur.
  assert (Hasc : as_constructed
                   (with_sections customConfigParser_init [(name, [])]))
    by (repeat split; reflexivity).
  assert (Hind1 : 0 <= indent_level st1) by lia.
  assert (Hmem : PyDict.mem
                   (deref (with_sections customConfigParser_init
                             [(name, [])]) (RSection name))
                   (optionxform key) = false).
  { simpl. now rewrite String.eqb_refl. }
  destruct (option_line_read
              (with_sections customConfigParser_init [(name, [])]) st1 2
              (RSection name) key value
              Hasc Hcur Hind1 Hk Hks Hkeq Hklf Hkbr Hv Hvs Hvlf Hmem)
    as (st2 & H2 & _ & _ & He2).
  unfold _read. cbn [read_lines]. rewrite H1.
  change (1 + 1) with 2. rewrite H2.
  rewrite He2, He. simpl. rewrite String.eqb_refl. simpl.
  unfold _join_multiline_values, with_sections, join_section. simpl.
  now rewrite (strip_fixed_rstrip value Hvs).
Qed.

Lemma read_section_with_option_witness :
  _read customConfigParser_init
    ["[" ++ "Display" ++ "]" ++ NL; "iSize W" ++ " = " ++ "1920" ++ NL]
  = (with_sections customConfigParser_init
       [("Display", [(optionxform "iSize W", VStr "1920")])],
     Returns).
Proof.
  apply (read_section_with_option "Display" "iSize W" "1920");
    try reflexivity; discriminate.
Defined.
